(** * BLE beacon decoding and RSSI-to-distance pipeline (bluetooth.py)

    A shallow embedding of the core of [bluetooth.py]:
    - [RecordRSSI]: the per-address RSSI history (a Python dict of lists);
    - [parse_ibeacon], [parse_eddystone]: the advertisement decoders;
    - [distanceCalculate]: standard deviation, Kalman smoothing and the
      log-distance path-loss formula.

    Conventions.
    - A Python call either returns a value or raises; this is the type
      [Py A] below, with the exceptions the embedded code can raise.
    - [bytes] objects are [list byte]; a [str] is a [string]; a Python
      [int] is a [Z].
    - Python floats are idealised: a finite float is a real number and
      rounding within the float range is not modelled.  The range is
      kept: a quotient beyond it is an infinity, a power beyond it
      raises OverflowError, a power below it is 0.0, and division by
      zero raises ZeroDivisionError.
    - [print] calls are not modelled. *)

From Stdlib Require Import ZArith List Strings.String Strings.Ascii Strings.Byte Reals Lra Lia.
From stdpp Require Import gmap strings list fin_maps.
Import ListNotations.

Local Open Scope Z_scope.

(** ** Python outcomes *)

Inductive exn : Type :=
| KeyError
| IndexError
| StructError
| UnicodeDecodeError
| StatisticsError
| ZeroDivisionError
| OverflowError.

Inductive Py (A : Type) : Type :=
| Ret (a : A)
| Raise (e : exn).

Arguments Ret {A} a.
Arguments Raise {A} e.

Definition py_bind {A B} (m : Py A) (k : A -> Py B) : Py B :=
  match m with
  | Ret a => k a
  | Raise e => Raise e
  end.

(** With this instance stdpp's [x ← m; k] is the sequencing of two
    Python statements: the second runs only if the first returned. *)
#[global] Instance Py_bind : MBind Py := fun A B k m => py_bind m k.

(** [try: body / except: return None], the wrapper both decoders use. *)
Definition try_except_None {A} (body : Py (option A)) : Py (option A) :=
  match body with
  | Ret r => Ret r
  | Raise _ => Ret None
  end.

(** ** Bytes *)

Definition bytes := list byte.

Definition byte_val (b : byte) : Z := Z.of_N (Byte.to_N b).

(** [data[i]] for [0 <= i]: IndexError past the end. *)
Definition getbyte (data : bytes) (i : nat) : Py Z :=
  match nth_error data i with
  | Some b => Ret (byte_val b)
  | None => Raise IndexError
  end.

(** [data[lo:hi]] and [data[lo:]] for [0 <= lo <= hi]: slices never raise,
    they are cut at the end of the buffer. *)
Definition slice (data : bytes) (lo hi : nat) : bytes :=
  firstn (hi - lo) (skipn lo data).

Definition slice_from (data : bytes) (lo : nat) : bytes := skipn lo data.

Definition hex_digit (n : N) : ascii :=
  match n with
  | 0 => "0" | 1 => "1" | 2 => "2" | 3 => "3" | 4 => "4" | 5 => "5"
  | 6 => "6" | 7 => "7" | 8 => "8" | 9 => "9" | 10 => "a" | 11 => "b"
  | 12 => "c" | 13 => "d" | 14 => "e" | _ => "f"
  end%N%char.

(** [bytes.hex()]: two lowercase hex digits per byte, no separator. *)
Fixpoint hex (data : bytes) : string :=
  match data with
  | [] => EmptyString
  | b :: rest =>
      String (hex_digit (Byte.to_N b / 16))
        (String (hex_digit (Byte.to_N b mod 16)) (hex rest))
  end.

(** [struct.unpack] field readers: [H] is an unsigned big-endian 16-bit
    integer, [b] a signed 8-bit integer. *)
Definition unpack_H (hi lo : byte) : Z := byte_val hi * 256 + byte_val lo.

Definition unpack_b (b : byte) : Z :=
  if byte_val b <? 128 then byte_val b else byte_val b - 256.

(** [struct.unpack('>HHb', buf)]: the buffer must be exactly 5 bytes. *)
Definition unpack_HHb (buf : bytes) : Py (Z * Z * Z) :=
  match buf with
  | [m1; m0; n1; n0; p] => Ret (unpack_H m1 m0, unpack_H n1 n0, unpack_b p)
  | _ => Raise StructError
  end.

(** ** Beacon records

    The decoders return a dict whose ['type'] entry tells the shape; the
    tag is the constructor here.  Hex renderings are ASCII strings; the
    decoded URL is a [str], kept as the list of its code points. *)

Inductive BeaconRecord : Type :=
| iBeacon (uuid : string) (major minor tx_power : Z)
| Eddystone_UID (namespace instance : string) (tx_power : Z)
| Eddystone_URL (url : list N) (tx_power : Z).

(** ** parse_ibeacon *)

Definition ibeacon_prefix : bytes := [x4c; x00; x02; x15].

(** [==] on bytes objects. *)
Fixpoint bytes_eqb (a b : bytes) : bool :=
  match a, b with
  | [], [] => true
  | x :: a', y :: b' => Byte.eqb x y && bytes_eqb a' b'
  | _, _ => false
  end.

Definition parse_ibeacon_body (manufacturer_data : bytes)
  : Py (option BeaconRecord) :=
  let prefix := slice manufacturer_data 0 4 in
  if negb (bytes_eqb prefix ibeacon_prefix) then Ret None
  else
    let uuid := hex (slice manufacturer_data 4 20) in
    '(major, minor, tx_power) ← unpack_HHb (slice manufacturer_data 20 25);
    Ret (Some (iBeacon uuid major minor tx_power)).

Definition parse_ibeacon (manufacturer_data : bytes)
  : Py (option BeaconRecord) :=
  try_except_None (parse_ibeacon_body manufacturer_data).

(** ** UTF-8 decoding

    [bytes.decode('utf-8')] in strict mode: the result is the sequence of
    code points, and any ill-formed sequence (stray continuation byte,
    overlong form, surrogate, value above U+10FFFF, truncated sequence)
    raises UnicodeDecodeError. *)

Local Open Scope N_scope.

Definition in_range (lo hi c : N) : bool := (lo <=? c) && (c <=? hi).

Definition is_cont (c : N) : bool := in_range 0x80 0xBF c.

Definition cont_bits (c : N) : N := c - 0x80.

(** Allowed range of the second byte after a three-byte lead [c0]. *)
Definition second_of_3 (c0 c1 : N) : bool :=
  if c0 =? 0xE0 then in_range 0xA0 0xBF c1
  else if c0 =? 0xED then in_range 0x80 0x9F c1
  else is_cont c1.

(** Allowed range of the second byte after a four-byte lead [c0]. *)
Definition second_of_4 (c0 c1 : N) : bool :=
  if c0 =? 0xF0 then in_range 0x90 0xBF c1
  else if c0 =? 0xF4 then in_range 0x80 0x8F c1
  else is_cont c1.

Fixpoint utf8_decode (data : bytes) : Py (list N) :=
  match data with
  | [] => Ret []
  | b0 :: r0 =>
      let c0 := Byte.to_N b0 in
      if c0 <? 0x80 then
        cps ← utf8_decode r0; Ret (c0 :: cps)
      else if in_range 0xC2 0xDF c0 then
        match r0 with
        | b1 :: r1 =>
            let c1 := Byte.to_N b1 in
            if is_cont c1 then
              cps ← utf8_decode r1;
              Ret (((c0 - 0xC0) * 64 + cont_bits c1) :: cps)
            else Raise UnicodeDecodeError
        | _ => Raise UnicodeDecodeError
        end
      else if in_range 0xE0 0xEF c0 then
        match r0 with
        | b1 :: b2 :: r2 =>
            let c1 := Byte.to_N b1 in
            let c2 := Byte.to_N b2 in
            if second_of_3 c0 c1 && is_cont c2 then
              cps ← utf8_decode r2;
              Ret (((c0 - 0xE0) * 4096 + cont_bits c1 * 64 + cont_bits c2)
                     :: cps)
            else Raise UnicodeDecodeError
        | _ => Raise UnicodeDecodeError
        end
      else if in_range 0xF0 0xF4 c0 then
        match r0 with
        | b1 :: b2 :: b3 :: r3 =>
            let c1 := Byte.to_N b1 in
            let c2 := Byte.to_N b2 in
            let c3 := Byte.to_N b3 in
            if second_of_4 c0 c1 && is_cont c2 && is_cont c3 then
              cps ← utf8_decode r3;
              Ret (((c0 - 0xF0) * 262144 + cont_bits c1 * 4096
                    + cont_bits c2 * 64 + cont_bits c3) :: cps)
            else Raise UnicodeDecodeError
        | _ => Raise UnicodeDecodeError
        end
      else Raise UnicodeDecodeError
  end.

Local Close Scope N_scope.

(** The code points of an ASCII text, to write expected [str] values. *)
Definition str_of (s : string) : list N :=
  map (fun a => N_of_ascii a) (list_ascii_of_string s).

(** ** parse_eddystone

    [service_data] is a dict from UUID strings to bytes; the loop visits
    its items in the dict's iteration order, so the dict is the list of
    its items in that order. *)

Definition eddystone_prefix : string := "0000feaa-".

(** [s.startswith(p)] *)
Definition startswith (s p : string) : bool := String.prefix p s.

(** The body of the [if uuid.startswith(...)] branch for one entry:
    [Ret (Some r)] is [return r]; [Ret None] means neither [if] nor
    [elif] fired and the [for] loop goes on. *)
Definition eddystone_entry (data : bytes) : Py (option BeaconRecord) :=
  frame_type ← getbyte data 0;
  if frame_type =? 0x00 then
    let namespace := hex (slice data 2 12) in
    let instance := hex (slice data 12 18) in
    tx_power ← getbyte data 1;
    Ret (Some (Eddystone_UID namespace instance tx_power))
  else if frame_type =? 0x10 then
    url ← utf8_decode (slice_from data 2);
    tx_power ← getbyte data 1;
    Ret (Some (Eddystone_URL url tx_power))
  else Ret None.

Fixpoint parse_eddystone_loop (items : list (string * bytes))
  : Py (option BeaconRecord) :=
  match items with
  | [] => Ret None
  | (uuid, data) :: rest =>
      if startswith uuid eddystone_prefix then
        r ← eddystone_entry data;
        match r with
        | Some rec => Ret (Some rec)
        | None => parse_eddystone_loop rest
        end
      else parse_eddystone_loop rest
  end.

Definition parse_eddystone (service_data : list (string * bytes))
  : Py (option BeaconRecord) :=
  try_except_None (parse_eddystone_loop service_data).

(** ** RecordRSSI

    The recorder object is its one field [rssidict], a dict from address
    to the list of RSSI values seen for it. *)

(** [d[k]]: KeyError for an absent key. *)
Definition getitem {V} (d : gmap string V) (k : string) : Py V :=
  match d !! k with
  | Some v => Ret v
  | None => Raise KeyError
  end.

Definition RecordRSSI_init : gmap string (list Z) := ∅.

Definition record_data (rssidict : gmap string (list Z))
    (address : string) (rssi : Z) : Py (gmap string (list Z)) :=
  let rssidict1 :=
    if bool_decide (address ∉ dom rssidict)
    then <[address := []]> rssidict
    else rssidict in
  l ← getitem rssidict1 address;
  Ret (<[address := l ++ [rssi]]> rssidict1).

Definition rssi_values (rssidict : gmap string (list Z))
  : gmap string (list Z) := rssidict.

(** A run of the scanner: the [record_data] calls in the order made. *)
Fixpoint record_all (rssidict : gmap string (list Z))
    (events : list (string * Z)) : Py (gmap string (list Z)) :=
  match events with
  | [] => Ret rssidict
  | (address, rssi) :: rest =>
      d ← record_data rssidict address rssi;
      record_all d rest
  end.

(** ** Float operations

    A float is a finite value or one of the three specials.  The result
    of an operation is its exact real value when that is within the
    float range and an infinity beyond it.  An int operand is taken as
    the float of the same value, which is exact for every int within
    the float range; ints beyond the float range, which Python converts
    or divides with OverflowError, are outside the model. *)

Local Open Scope R_scope.

Inductive pyfloat : Type :=
| Fin (r : R)
| PInf
| NInf
| NaN.

Coercion Fin : R >-> pyfloat.

(** Largest finite binary64 value, [(2^53 - 1) * 2^971]. *)
Definition float_max : R := IZR ((2 ^ 53 - 1) * 2 ^ 971).

(** Half the smallest positive binary64 value, [2^-1075]: a positive
    result below it is returned as [0.0]. *)
Definition float_tiny : R := / IZR (2 ^ 1075).

(** The float for an exact result [r]: an infinity when [r] is beyond
    the largest float. *)
Definition fround (r : R) : pyfloat :=
  if Rlt_dec float_max r then PInf
  else if Rlt_dec r (- float_max) then NInf
  else Fin r.

(** [a - b] and [a * b] on finite floats. *)
Definition py_sub (a b : R) : pyfloat := fround (a - b).

Definition py_mul (a b : R) : pyfloat := fround (a * b).

(** The value of [a / b] for a non-zero [b]. *)
Definition div_value (a b : pyfloat) : pyfloat :=
  match a, b with
  | NaN, _ => NaN
  | _, NaN => NaN
  | Fin n, Fin d => fround (n / d)
  | Fin _, _ => Fin 0
  | PInf, Fin d => if Rlt_dec 0 d then PInf else NInf
  | NInf, Fin d => if Rlt_dec 0 d then NInf else PInf
  | _, _ => NaN
  end.

(** [a / b]: ZeroDivisionError when [b] is zero; a quotient beyond the
    float range is an infinity, without error. *)
Definition py_truediv (a b : pyfloat) : Py pyfloat :=
  match b with
  | Fin d =>
      if Req_dec_T d 0 then Raise ZeroDivisionError else Ret (div_value a b)
  | _ => Ret (div_value a b)
  end.

(** The value of [10 ** e] when it does not raise: [0.0] when the power
    is too small for a float, [inf] for [e = inf], [0.0] for
    [e = -inf]. *)
Definition pow10_value (e : pyfloat) : pyfloat :=
  match e with
  | Fin y =>
      if Rlt_dec float_max (Rpower 10 y) then PInf
      else if Rlt_dec (Rpower 10 y) float_tiny then Fin 0
      else Fin (Rpower 10 y)
  | PInf => PInf
  | NInf => Fin 0
  | NaN => NaN
  end.

(** [10 ** e] for a float [e]: OverflowError when [e] is finite and the
    power is beyond the largest float. *)
Definition py_pow10 (e : pyfloat) : Py pyfloat :=
  match e with
  | Fin y =>
      if Rlt_dec float_max (Rpower 10 y) then Raise OverflowError
      else Ret (pow10_value e)
  | _ => Ret (pow10_value e)
  end.

(** ** statistics.stdev

    The sample standard deviation; fewer than two data points raise
    StatisticsError. *)

Definition rsum (xs : list R) : R := fold_right Rplus 0 xs.

Definition mean (xs : list R) : R := rsum xs / INR (length xs).

Definition sum_sq_dev (xs : list R) : R :=
  rsum (map (fun x => (x - mean xs) * (x - mean xs)) xs).

Definition sample_sd (xs : list R) : R :=
  sqrt (sum_sq_dev xs / (INR (length xs) - 1)).

Definition stdev (data : list Z) : Py R :=
  if (length data <? 2)%nat then Raise StatisticsError
  else Ret (sample_sd (map IZR data)).

(** ** KalmanFilter *)

(** Modelled from the spec: class [KalmanFilter] of module [kalman]
    (imported on line 10), which is not among the sources.  Section 4.3
    of the specification: constructed from (process_noise,
    measurement_noise); on the first sample the estimate is that sample
    and the error covariance is 1.0; then, for every sample [x],
    the covariance grows by the process noise, the gain is
    covariance / (covariance + measurement_noise), the estimate moves by
    gain * (x - estimate), the covariance is scaled by (1 - gain), and
    the updated estimate is the output.  [estimate = None] is the
    filter before its first sample. *)
Record KalmanFilter : Type := mkKalman {
  process_noise : R;
  measurement_noise : R;
  estimate : option R;
  error_covariance : R
}.

(** Modelled from the spec: the constructor
    [KalmanFilter(process_noise, measurement_noise)] of section 4.3. *)
Definition KalmanFilter_new (q r : R) : KalmanFilter :=
  mkKalman q r None 1.

(** Modelled from the spec: the method [KalmanFilter.filter] of
    section 4.3; returns the output and the updated filter. *)
Definition KalmanFilter_filter (self : KalmanFilter) (x : R) : R * KalmanFilter :=
  let '(est, cov) :=
    match estimate self with
    | None => (x, 1)
    | Some e => (e, error_covariance self)
    end in
  let cov1 := cov + process_noise self in
  let gain := cov1 / (cov1 + measurement_noise self) in
  let est' := est + gain * (x - est) in
  let cov' := cov1 * (1 - gain) in
  (est', mkKalman (process_noise self) (measurement_noise self)
           (Some est') cov').

(** ** distanceCalculate *)

(** The exact exponent of the log-distance path-loss formula. *)
Definition exponent (x mRSSI txPower : R) : R :=
  (mRSSI - x) / (10 * txPower).

(** The float value of the formula [10**((mRSSI - x)/(10*txPower))]:
    what the expression evaluates to when it does not raise. *)
Definition distance (x mRSSI txPower : R) : pyfloat :=
  pow10_value (div_value (py_sub mRSSI x) (py_mul 10 txPower)).

(** The expression [10**((mRSSI - x)/(10*txPower))] of lines 130 and
    131. *)
Definition estimate_distance (x mRSSI txPower : R) : Py pyfloat :=
  e ← py_truediv (py_sub mRSSI x) (py_mul 10 txPower);
  py_pow10 e.

Record DistanceSeries : Type := mkSeries {
  raw : list pyfloat;
  filtered : list pyfloat
}.

(** The [for x in rssi_dict[mac_address]] loop, with the filter object
    and the two arrays it updates. *)
Fixpoint distance_loop (mRSSI txPower : R) (test : KalmanFilter)
    (xs : list Z) (raw_distanceArray filtered_distanceArray : list pyfloat)
  : Py (list pyfloat * list pyfloat) :=
  match xs with
  | [] => Ret (raw_distanceArray, filtered_distanceArray)
  | x :: rest =>
      let '(filteredValue, test') := KalmanFilter_filter test (IZR x) in
      raw_distance ← estimate_distance (IZR x) mRSSI txPower;
      filtered_distance ← estimate_distance filteredValue mRSSI txPower;
      distance_loop mRSSI txPower test' rest
        (raw_distanceArray ++ [raw_distance])
        (filtered_distanceArray ++ [filtered_distance])
  end.

(** [rssi_dict] is the module-level dict the function reads. *)
Definition distanceCalculate (rssi_dict : gmap string (list Z))
    (mac_address : string) (mRSSI txPower : R) : Py DistanceSeries :=
  h ← getitem rssi_dict mac_address;
  sd ← stdev h;
  let test := KalmanFilter_new (8 / 1000) sd in
  xs ← getitem rssi_dict mac_address;
  '(r, f) ← distance_loop mRSSI txPower test xs [] [];
  Ret (mkSeries r f).

(** The filter's outputs on a sample sequence, as a plain list: what
    [filteredValue] is at each turn of the loop. *)
Fixpoint filter_outputs (test : KalmanFilter) (xs : list R) : list R :=
  match xs with
  | [] => []
  | x :: rest =>
      let '(y, test') := KalmanFilter_filter test x in y :: filter_outputs test' rest
  end.

(** The filter object after it has consumed a sample sequence. *)
Fixpoint filter_state (test : KalmanFilter) (xs : list R) : KalmanFilter :=
  match xs with
  | [] => test
  | x :: rest => filter_state (snd (KalmanFilter_filter test x)) rest
  end.

(** A well-formed filter object: positive process noise, non-negative
    measurement noise and covariance, and an estimate (if any) with the
    property [P]. *)
Definition kf_ok (P : R -> Prop) (test : KalmanFilter) : Prop :=
  0 < process_noise test /\ 0 <= measurement_noise test /\
  0 <= error_covariance test /\
  forall e, estimate test = Some e -> P e.

(** A float that is not negative: zero, a positive finite float, [inf]
    or [nan]. *)
Definition nonneg_float (v : pyfloat) : Prop :=
  match v with
  | Fin r => 0 <= r <= float_max
  | PInf => True
  | NInf => False
  | NaN => True
  end.

(** ** Inputs used in the statements below *)

Local Close Scope R_scope.

(** The data of the first entry whose UUID has the Eddystone prefix. *)
Fixpoint first_eddystone (items : list (string * bytes)) : option bytes :=
  match items with
  | [] => None
  | (uuid, data) :: rest =>
      if startswith uuid eddystone_prefix then Some data
      else first_eddystone rest
  end.

Definition eddystone_uuid : string := "0000feaa-0000-1000-8000-00805f9b34fb".

(** [4C 00 02 15], sixteen zero bytes, [00 01 00 02 FE]. *)
Definition ibeacon_vector : bytes :=
  [x4c; x00; x02; x15] ++ repeat x00 16 ++ [x00; x01; x00; x02; xfe].

(** [bytes([0x00, 0xEB] + [0x01]*10 + [0x02]*6)] *)
Definition uid_vector : bytes :=
  [x00; xeb] ++ repeat x01 10 ++ repeat x02 6.

(** [bytes([0x10, 0xEC]) + b"http://x"] *)
Definition url_vector : bytes :=
  [x10; xec] ++ [x68; x74; x74; x70; x3a; x2f; x2f; x78].

(** A UID frame cut after its tx-power byte. *)
Definition short_uid : bytes := [x00; xeb].

(** Two Eddystone-tagged entries: a TLM frame (type 0x20) first, then a
    URL frame. *)
Definition tlm_then_url : list (string * bytes) :=
  [ (eddystone_uuid, [x20; x00; x0b; xb8]);
    ("0000feaa-0000-1000-8000-00805f9b34fc"%string, url_vector) ].

(** The RSSI values a run records for [address], in call order. *)
Fixpoint recorded (address : string) (events : list (string * Z)) : list Z :=
  match events with
  | [] => []
  | (a, rssi) :: rest =>
      if String.eqb a address then rssi :: recorded address rest
      else recorded address rest
  end.

(** Whether a run has a call for [address]. *)
Definition seen (address : string) (events : list (string * Z)) : bool :=
  existsb (fun e => String.eqb (fst e) address) events.

(** A recorder that has seen two devices. *)
Definition two_devices : gmap string (list Z) :=
  <[ "EC:81:F6:64:F0:86"%string := [-60] ]>
    (<[ "E0:35:2F:E6:42:46"%string := [-70] ]> ∅).

(** The address of the first beacon of the reference run. *)
Definition beacon1 : string := "EC:81:F6:64:F0:86".

(** The module-level [rssi_dict] holding one history, for [beacon1]. *)
Definition one_history (h : list Z) : gmap string (list Z) :=
  <[ beacon1 := h ]> ∅.

(** ** scan_for_beacons

    [BleakScanner.discover(..., return_adv=True)] gives a dict from
    address to a pair (device, advertisement data); the function loops
    over its values.  The radio scan is outside the program: its result
    is an argument here, the list of values in the dict's order.  The
    body writes to the module-level [record] object (its [recorder]
    parameter is not used), which is the state threaded below. *)

Record BLEDevice : Type := mkDevice {
  address : string;
  name : option string
}.

Record AdvertisementData : Type := mkAdvertisement {
  rssi : Z;
  manufacturer_data : list (Z * bytes);
  service_data : list (string * bytes)
}.

(** The [for manufacturer_id, data in ....items()] loop: each value is
    parsed, the result is only printed. *)
Fixpoint ibeacon_loop (items : list (Z * bytes)) : Py unit :=
  match items with
  | [] => Ret tt
  | (_, data) :: rest =>
      _ ← parse_ibeacon data;
      ibeacon_loop rest
  end.

(** One turn of the [for device, advertisement_data in ...] loop. *)
Definition scan_device (record : gmap string (list Z))
    (beaconfilter : list string)
    (entry : BLEDevice * AdvertisementData) : Py (gmap string (list Z)) :=
  let '(device, advertisement_data) := entry in
  if negb (existsb (String.eqb (address device)) beaconfilter) then Ret record
  else
    record1 ← record_data record (address device) (rssi advertisement_data);
    _ ← match manufacturer_data advertisement_data with
        | [] => Ret tt
        | items => ibeacon_loop items
        end;
    _ ← match service_data advertisement_data with
        | [] => Ret tt
        | items => _ ← parse_eddystone items; Ret tt
        end;
    Ret record1.

Fixpoint scan_for_beacons (record : gmap string (list Z))
    (beaconfilter : list string)
    (devices : list (BLEDevice * AdvertisementData))
  : Py (gmap string (list Z)) :=
  match devices with
  | [] => Ret record
  | entry :: rest =>
      record1 ← scan_device record beaconfilter entry;
      scan_for_beacons record1 beaconfilter rest
  end.

(** ** The main program

    The part of the [try] block before plotting: the scans, one per
    turn of [for i in range(120)] (their discovered devices are the
    argument, one list per turn), then the three distance
    computations. *)

Definition filter_beacons : list string :=
  ["EC:81:F6:64:F0:86"; "E0:35:2F:E6:42:46"; "EC:BF:B3:25:D5:6C"]%string.

Fixpoint scan_rounds (record : gmap string (list Z))
    (beaconfilter : list string)
    (rounds : list (list (BLEDevice * AdvertisementData)))
  : Py (gmap string (list Z)) :=
  match rounds with
  | [] => Ret record
  | devices :: rest =>
      record1 ← scan_for_beacons record beaconfilter devices;
      scan_rounds record1 beaconfilter rest
  end.

Definition main_body (rounds : list (list (BLEDevice * AdvertisementData)))
  : Py (DistanceSeries * DistanceSeries * DistanceSeries) :=
  let record := RecordRSSI_init in
  record1 ← scan_rounds record filter_beacons rounds;
  let rssi_dict := rssi_values record1 in
  b1 ← distanceCalculate rssi_dict "EC:81:F6:64:F0:86" (-59)%R 2%R;
  b2 ← distanceCalculate rssi_dict "E0:35:2F:E6:42:46" (-65)%R 2%R;
  b3 ← distanceCalculate rssi_dict "EC:BF:B3:25:D5:6C" (-62)%R 2%R;
  Ret (b1, b2, b3).

(** The [record_data] calls a scan makes: one per discovered device whose
    address is in the filter, in the order of the devices. *)
Definition scan_events (beaconfilter : list string)
    (devices : list (BLEDevice * AdvertisementData)) : list (string * Z) :=
  map (fun e => (address (fst e), rssi (snd e)))
    (List.filter
       (fun e => existsb (String.eqb (address (fst e))) beaconfilter)
       devices).

(** A scan result with three devices: a listed one with manufacturer
    data, one that is not in the filter, and a listed one with an empty
    Eddystone payload. *)
Definition sample_scan : list (BLEDevice * AdvertisementData) :=
  [ (mkDevice "EC:81:F6:64:F0:86" (Some "No.6"%string),
     mkAdvertisement (-60) [(76, ibeacon_vector)] []);
    (mkDevice "11:22:33:44:55:66" None, mkAdvertisement (-90) [] []);
    (mkDevice "E0:35:2F:E6:42:46" None,
     mkAdvertisement (-70) [] [(eddystone_uuid, [])]) ].

(** A scan result with the three beacons of the reference run. *)
Definition three_beacons (r1 r2 r3 : Z)
  : list (BLEDevice * AdvertisementData) :=
  [ (mkDevice "EC:81:F6:64:F0:86" None, mkAdvertisement r1 [] []);
    (mkDevice "E0:35:2F:E6:42:46" None, mkAdvertisement r2 [] []);
    (mkDevice "EC:BF:B3:25:D5:6C" None, mkAdvertisement r3 [] []) ].

(** * Properties *)

(** ** Helper lemmas on bytes *)

Lemma bytes_eqb_eq (a b : bytes) : bytes_eqb a b = true <-> a = b.
Proof.
  revert b. induction a as [|x a IH]; intros [|y b]; simpl; split;
    try congruence; try reflexivity.
  - intros H. apply andb_true_iff in H as [Hx Hr].
    apply Byte.byte_dec_bl in Hx. apply IH in Hr. congruence.
  - intros H. injection H as -> ->. apply andb_true_iff. split.
    + now apply Byte.byte_dec_lb.
    + now apply IH.
Qed.

Lemma slice_length (data : bytes) (lo hi : nat) :
  length (slice data lo hi) = Nat.min (hi - lo) (length data - lo).
Proof. unfold slice. now rewrite length_firstn, length_skipn. Qed.

Lemma unpack_HHb_short (buf : bytes) :
  (length buf < 5)%nat -> unpack_HHb buf = Raise StructError.
Proof.
  intros H. do 5 (destruct buf as [|? buf]; [reflexivity|]).
  simpl in H. lia.
Qed.

Lemma byte_val_range (b : byte) : 0 <= byte_val b <= 255.
Proof.
  unfold byte_val. pose proof (Byte.to_N_bounded b). lia.
Qed.

(** ** parse_ibeacon *)

(** C6: [parse_ibeacon] always returns (it never raises), and it returns
    [None] whenever the first four bytes are not [4C 00 02 15] (buffers
    shorter than four bytes included) or the buffer has fewer than 25
    bytes. *)
Theorem parse_ibeacon_total (buf : bytes) :
  (exists r, parse_ibeacon buf = Ret r) /\
  (firstn 4 buf <> ibeacon_prefix \/ (length buf < 25)%nat ->
   parse_ibeacon buf = Ret None).
Proof.
  split.
  - unfold parse_ibeacon. destruct (parse_ibeacon_body buf) as [r|e]; simpl; eauto.
  - intros H. unfold parse_ibeacon, parse_ibeacon_body.
    destruct (bytes_eqb (slice buf 0 4) ibeacon_prefix) eqn:E; simpl.
    + apply bytes_eqb_eq in E. unfold slice in E. simpl in E.
      destruct H as [H|H]; [contradiction|].
      rewrite unpack_HHb_short; [reflexivity|].
      rewrite slice_length. lia.
    + reflexivity.
Qed.

Lemma parse_ibeacon_total_witness :
  (exists r, parse_ibeacon [x4c; x00; x02] = Ret r) /\
  parse_ibeacon [x4c; x00; x02] = Ret None.
Proof.
  destruct (parse_ibeacon_total [x4c; x00; x02]) as [H1 H2].
  split; [exact H1|]. apply H2. right. simpl. lia.
Defined.

(** C8: the iBeacon test vector decodes to uuid = 32 zero hex digits,
    major 1, minor 2 and tx_power -2. *)
Theorem parse_ibeacon_vector :
  parse_ibeacon ibeacon_vector =
  Ret (Some (iBeacon "00000000000000000000000000000000" 1 2 (-2))).
Proof. vm_compute. reflexivity. Qed.

(** A buffer with the prefix, sixteen UUID bytes and the five trailing
    bytes decodes field by field, whatever follows. *)
Lemma parse_ibeacon_fields (u : bytes) (m1 m0 n1 n0 p : byte) (rest : bytes) :
  length u = 16%nat ->
  parse_ibeacon (ibeacon_prefix ++ u ++ [m1; m0; n1; n0; p] ++ rest) =
  Ret (Some (iBeacon (hex u) (unpack_H m1 m0) (unpack_H n1 n0) (unpack_b p))).
Proof.
  intros Hu.
  do 16 (destruct u as [|? u]; [discriminate Hu|]).
  destruct u; [|discriminate Hu].
  reflexivity.
Qed.

(** ** parse_eddystone *)

Lemma parse_eddystone_loop_skip (pre post : list (string * bytes)) :
  Forall (fun e => startswith (fst e) eddystone_prefix = false) pre ->
  parse_eddystone_loop (pre ++ post) = parse_eddystone_loop post.
Proof.
  induction 1 as [|[uuid data] pre Hx _ IH]; simpl; [reflexivity|].
  simpl in Hx. now rewrite Hx.
Qed.

Lemma parse_eddystone_loop_no_entry (items : list (string * bytes)) :
  Forall (fun e => startswith (fst e) eddystone_prefix = false) items ->
  parse_eddystone_loop items = Ret None.
Proof.
  intros H. rewrite <- (app_nil_r items).
  now rewrite parse_eddystone_loop_skip.
Qed.

(** What the decoder does with a UID frame of at least two bytes: it
    always returns a UID record, built from whatever the slices hold. *)
Lemma eddystone_entry_uid (b : byte) (rest : bytes) :
  eddystone_entry (x00 :: b :: rest) =
  Ret (Some (Eddystone_UID (hex (firstn 10 rest))
               (hex (firstn 6 (skipn 10 rest))) (byte_val b))).
Proof. reflexivity. Qed.

(** Every UID payload of two bytes or more gives a record, also when it
    is shorter than the 18 bytes of a full frame; a payload of the type
    byte alone gives [None]. *)
Lemma parse_eddystone_uid_any_length (uuid : string) (b : byte) (rest : bytes) :
  startswith uuid eddystone_prefix = true ->
  parse_eddystone [(uuid, x00 :: b :: rest)] =
  Ret (Some (Eddystone_UID (hex (firstn 10 rest))
               (hex (firstn 6 (skipn 10 rest))) (byte_val b))) /\
  parse_eddystone [(uuid, [x00])] = Ret None.
Proof.
  intros Hu. unfold parse_eddystone.
  cbn [parse_eddystone_loop]. rewrite Hu, eddystone_entry_uid.
  split; reflexivity.
Qed.

(** C1: on a UID frame cut to two bytes the decoder does not return
    [None]: it returns a UID record with empty namespace and instance. *)
Theorem parse_eddystone_short_uid :
  (length short_uid < 18)%nat /\
  parse_eddystone [(eddystone_uuid, short_uid)] =
  Ret (Some (Eddystone_UID "" "" 235)).
Proof. split; [simpl; lia | vm_compute; reflexivity]. Qed.

(** C2: on the UID and URL test vectors the decoder returns the tx-power
    byte unsigned, 235 and 236, where the signed readings are -21 and
    -20. *)
Theorem parse_eddystone_tx_power_unsigned :
  parse_eddystone [(eddystone_uuid, uid_vector)] =
    Ret (Some (Eddystone_UID "01010101010101010101" "020202020202" 235)) /\
  parse_eddystone [(eddystone_uuid, url_vector)] =
    Ret (Some (Eddystone_URL (str_of "http://x") 236)) /\
  unpack_b xeb = -21 /\ unpack_b xec = -20.
Proof. repeat split; vm_compute; reflexivity. Qed.

(** C4, as stated, fails: the first Eddystone-tagged entry of
    [tlm_then_url] has frame type 0x20, yet the result is the URL record
    of the second entry. *)
Lemma parse_eddystone_later_entry_decoded :
  first_eddystone tlm_then_url = Some [x20; x00; x0b; xb8] /\
  parse_eddystone tlm_then_url =
    Ret (Some (Eddystone_URL (str_of "http://x") 236)) /\
  parse_eddystone tlm_then_url <> Ret None.
Proof.
  split; [reflexivity|]. split; [vm_compute; reflexivity|].
  vm_compute. discriminate.
Qed.

(** C4, amended: let the first Eddystone-tagged entry have data
    [ft :: rest].  If [ft] is 0x00 or 0x10 the result is the decoding of
    that entry alone, whatever follows it.  Otherwise the entry is
    skipped: the result is that of the entries after it, and so [None]
    when none of those is Eddystone-tagged. *)
Theorem parse_eddystone_first_decodable
    (pre post : list (string * bytes)) (uuid : string)
    (ft : byte) (rest : bytes) :
  Forall (fun e => startswith (fst e) eddystone_prefix = false) pre ->
  startswith uuid eddystone_prefix = true ->
  (byte_val ft = 0x00 \/ byte_val ft = 0x10 ->
   parse_eddystone (pre ++ (uuid, ft :: rest) :: post) =
   try_except_None (eddystone_entry (ft :: rest))) /\
  (byte_val ft <> 0x00 /\ byte_val ft <> 0x10 ->
   parse_eddystone (pre ++ (uuid, ft :: rest) :: post) =
   parse_eddystone post) /\
  (byte_val ft <> 0x00 /\ byte_val ft <> 0x10 ->
   Forall (fun e => startswith (fst e) eddystone_prefix = false) post ->
   parse_eddystone (pre ++ (uuid, ft :: rest) :: post) = Ret None).
Proof.
  intros Hpre Hu.
  assert (Hskip : byte_val ft <> 0x00 /\ byte_val ft <> 0x10 ->
    parse_eddystone_loop (pre ++ (uuid, ft :: rest) :: post) =
    parse_eddystone_loop post).
  { intros [H0 H1]. rewrite parse_eddystone_loop_skip by exact Hpre.
    simpl. rewrite Hu. unfold eddystone_entry.
    change (getbyte (ft :: rest) 0) with (Ret (byte_val ft)).
    apply Z.eqb_neq in H0, H1. cbn. now rewrite H0, H1. }
  split; [|split].
  - intros Hft. unfold parse_eddystone.
    rewrite parse_eddystone_loop_skip by exact Hpre.
    simpl. rewrite Hu.
    destruct (eddystone_entry (ft :: rest)) as [[r|]|e] eqn:E;
      try reflexivity.
    exfalso. unfold eddystone_entry in E.
    change (getbyte (ft :: rest) 0) with (Ret (byte_val ft)) in E.
    destruct Hft as [H | H]; rewrite H in E; cbn in E.
    + destruct (getbyte (ft :: rest) 1); discriminate.
    + destruct (utf8_decode _); cbn in E; [|discriminate].
      destruct (getbyte (ft :: rest) 1); discriminate.
  - intros H. unfold parse_eddystone. now rewrite Hskip.
  - intros H Hpost. unfold parse_eddystone. rewrite Hskip by exact H.
    now rewrite parse_eddystone_loop_no_entry.
Qed.

Lemma parse_eddystone_first_decodable_witness :
  parse_eddystone (tlm_then_url ++ []) = parse_eddystone [(
    "0000feaa-0000-1000-8000-00805f9b34fc"%string, url_vector)] /\
  parse_eddystone [("0000180f-0000-1000-8000-00805f9b34fb"%string, [x64]);
                   (eddystone_uuid, [x20; x00; x0b; xb8])] = Ret None /\
  parse_eddystone [(eddystone_uuid, url_vector);
                   ("0000feaa-0000-1000-8000-00805f9b34fc"%string,
                    uid_vector)] =
  try_except_None (eddystone_entry url_vector).
Proof.
  split; [|split].
  - apply (parse_eddystone_first_decodable []
             [("0000feaa-0000-1000-8000-00805f9b34fc"%string, url_vector)]
             eddystone_uuid x20 [x00; x0b; xb8]);
      [constructor | reflexivity | split; vm_compute; discriminate].
  - apply (parse_eddystone_first_decodable
             [("0000180f-0000-1000-8000-00805f9b34fb"%string, [x64])] []
             eddystone_uuid x20 [x00; x0b; xb8]).
    + repeat constructor.
    + reflexivity.
    + split; vm_compute; discriminate.
    + constructor.
  - apply (parse_eddystone_first_decodable []
             [("0000feaa-0000-1000-8000-00805f9b34fc"%string, uid_vector)]
             eddystone_uuid x10
             (tl url_vector)); [constructor | reflexivity | now right].
Defined.

(** ** RecordRSSI *)

Lemma record_data_spec (d : gmap string (list Z)) (a : string) (r : Z) :
  record_data d a r = Ret (<[a := default [] (d !! a) ++ [r]]> d).
Proof.
  unfold record_data. case_bool_decide as Hdom.
  - apply not_elem_of_dom in Hdom. rewrite Hdom. unfold getitem.
    rewrite lookup_insert_eq. cbn. now rewrite insert_insert_eq.
  - assert (Hin : a ∈ dom d) by (destruct (decide (a ∈ dom d)); tauto).
    apply elem_of_dom in Hin as [l Hl]. unfold getitem. rewrite Hl.
    reflexivity.
Qed.

(** C10: [record_data] returns, the sequence of the recorded address
    gains exactly the given value at its end (starting from the empty
    sequence for a new address), and the sequence of every other address
    is what it was. *)
Theorem record_data_frame (d : gmap string (list Z)) (a : string) (r : Z) :
  exists d', record_data d a r = Ret d' /\
    d' !! a = Some (default [] (d !! a) ++ [r]) /\
    forall b, b <> a -> d' !! b = d !! b.
Proof.
  eexists. split; [apply record_data_spec|]. split.
  - apply lookup_insert_eq.
  - intros b Hb. apply lookup_insert_ne. congruence.
Qed.

Lemma record_data_frame_witness :
  exists d', record_data two_devices "EC:81:F6:64:F0:86" (-61) = Ret d' /\
    d' !! "EC:81:F6:64:F0:86"%string = Some [-60; -61] /\
    d' !! "E0:35:2F:E6:42:46"%string = Some [-70].
Proof.
  destruct (record_data_frame two_devices "EC:81:F6:64:F0:86" (-61))
    as (d' & H1 & H2 & H3).
  exists d'. split; [exact H1|]. split.
  - rewrite H2. reflexivity.
  - rewrite H3; [reflexivity | discriminate].
Defined.

Lemma seen_recorded (a : string) (events : list (string * Z)) :
  seen a events = false <-> recorded a events = [].
Proof.
  induction events as [|[b r] rest IH]; simpl; [tauto|].
  destruct (String.eqb b a); simpl; [split; discriminate | exact IH].
Qed.

Lemma record_all_lookup (events : list (string * Z)) :
  forall d : gmap string (list Z),
  exists d', record_all d events = Ret d' /\
    forall a, d' !! a =
      match d !! a with
      | Some l => Some (l ++ recorded a events)
      | None => if seen a events then Some (recorded a events) else None
      end.
Proof.
  induction events as [|[b r] rest IH]; intros d; simpl.
  - exists d. split; [reflexivity|]. intros a.
    destruct (d !! a); [now rewrite app_nil_r | reflexivity].
  - rewrite record_data_spec. cbn.
    destruct (IH (<[b := default [] (d !! b) ++ [r]]> d)) as (d' & Hd' & Hl).
    exists d'. split; [exact Hd'|]. intros a. rewrite Hl.
    destruct (String.eqb b a) eqn:E.
    + apply String.eqb_eq in E. subst b. rewrite lookup_insert_eq.
      destruct (d !! a); simpl; [now rewrite <- app_assoc | reflexivity].
    + apply String.eqb_neq in E. rewrite lookup_insert_ne by exact E.
      reflexivity.
Qed.

(** C9: a run of [record_data] calls on a fresh recorder returns, and
    then reading [rssi_values()[address]] gives exactly the values
    recorded for that address, in call order; an address that was never
    recorded has no sequence (KeyError). *)
Theorem record_then_read (events : list (string * Z)) :
  exists d, record_all RecordRSSI_init events = Ret d /\
    forall a, getitem (rssi_values d) a =
      if seen a events then Ret (recorded a events) else Raise KeyError.
Proof.
  destruct (record_all_lookup events RecordRSSI_init) as (d & Hd & Hl).
  exists d. split; [exact Hd|]. intros a.
  unfold getitem, rssi_values. rewrite Hl.
  unfold RecordRSSI_init. rewrite lookup_empty.
  now destruct (seen a events).
Qed.

(** ** Float operations *)

Local Open Scope R_scope.

Lemma float_max_ge_1 : 1 <= float_max.
Proof. unfold float_max. apply IZR_le. vm_compute. discriminate. Qed.

Lemma float_max_large : 10000000 <= float_max.
Proof. unfold float_max. apply IZR_le. vm_compute. discriminate. Qed.

Lemma float_tiny_pos : 0 < float_tiny.
Proof.
  unfold float_tiny. apply Rinv_0_lt_compat. apply IZR_lt. reflexivity.
Qed.

Lemma float_tiny_lt_1 : float_tiny < 1.
Proof.
  unfold float_tiny. rewrite <- Rinv_1. apply Rinv_lt_contravar.
  - rewrite Rmult_1_l. apply IZR_lt. reflexivity.
  - apply IZR_lt. reflexivity.
Qed.

Lemma fround_fin (r : R) :
  - float_max <= r <= float_max -> fround r = Fin r.
Proof.
  intros [H1 H2]. unfold fround.
  destruct (Rlt_dec float_max r); [lra|].
  destruct (Rlt_dec r (- float_max)); [lra | reflexivity].
Qed.

Lemma fround_pinf (r : R) : float_max < r -> fround r = PInf.
Proof. intros H. unfold fround. now destruct (Rlt_dec float_max r). Qed.

Lemma fround_ninf (r : R) : r < - float_max -> fround r = NInf.
Proof.
  intros H. pose proof float_max_ge_1. unfold fround.
  destruct (Rlt_dec float_max r); [lra|].
  now destruct (Rlt_dec r (- float_max)).
Qed.

Lemma fround_Fin_inv (r y : R) : fround r = Fin y -> y = r.
Proof.
  unfold fround. destruct (Rlt_dec float_max r); [discriminate|].
  destruct (Rlt_dec r (- float_max)); [discriminate|]. congruence.
Qed.

Lemma fround_0 : fround 0 = Fin 0.
Proof. apply fround_fin. pose proof float_max_ge_1. lra. Qed.

Lemma py_mul_nonzero (t : R) : t <> 0 -> py_mul 10 t <> Fin 0.
Proof.
  intros Ht H. unfold py_mul in H. apply fround_Fin_inv in H. lra.
Qed.

Lemma py_truediv_ok (a b : pyfloat) :
  b <> Fin 0 -> py_truediv a b = Ret (div_value a b).
Proof.
  intros H. unfold py_truediv. destruct b as [d| | |]; try reflexivity.
  destruct (Req_dec_T d 0) as [->|]; [contradiction | reflexivity].
Qed.

Lemma py_truediv_zero (a : pyfloat) :
  py_truediv a (Fin 0) = Raise ZeroDivisionError.
Proof. unfold py_truediv. now destruct (Req_dec_T 0 0). Qed.

Lemma py_pow10_ok (e : pyfloat) :
  (forall y, e = Fin y -> Rpower 10 y <= float_max) ->
  py_pow10 e = Ret (pow10_value e).
Proof.
  intros H. unfold py_pow10. destruct e as [y| | |]; try reflexivity.
  specialize (H y eq_refl).
  destruct (Rlt_dec float_max (Rpower 10 y)); [lra | reflexivity].
Qed.

Lemma py_pow10_overflow (y : R) :
  float_max < Rpower 10 y -> py_pow10 (Fin y) = Raise OverflowError.
Proof.
  intros H. unfold py_pow10.
  now destruct (Rlt_dec float_max (Rpower 10 y)).
Qed.

Lemma Rpower10_nat (n : nat) : Rpower 10 (INR n) = IZR (10 ^ Z.of_nat n).
Proof. rewrite Rpower_pow by lra. apply pow_IZR. Qed.

(** [10^308] is a float, [10^309] is not. *)
Lemma pow10_308_fits (y : R) : y <= 308 -> Rpower 10 y <= float_max.
Proof.
  intros H. apply Rle_trans with (Rpower 10 (INR 308)).
  - apply Rle_Rpower; [lra|]. rewrite INR_IZR_INZ. exact H.
  - rewrite Rpower10_nat. unfold float_max. apply IZR_le.
    vm_compute. discriminate.
Qed.

Lemma pow10_309_overflows (y : R) : 309 <= y -> float_max < Rpower 10 y.
Proof.
  intros H. apply Rlt_le_trans with (Rpower 10 (INR 309)).
  - rewrite Rpower10_nat. unfold float_max. apply IZR_lt.
    vm_compute. reflexivity.
  - apply Rle_Rpower; [lra|]. rewrite INR_IZR_INZ. exact H.
Qed.

(** [10^-307] is not rounded to zero, [10^-324] is. *)
Lemma pow10_m307_kept (y : R) : -307 <= y -> float_tiny <= Rpower 10 y.
Proof.
  intros H. apply Rle_trans with (Rpower 10 (- INR 307)).
  - rewrite Rpower_Ropp, Rpower10_nat. unfold float_tiny.
    apply Rinv_le_contravar; [apply IZR_lt; reflexivity|].
    apply IZR_le. vm_compute. discriminate.
  - apply Rle_Rpower; [lra|]. rewrite INR_IZR_INZ.
    change (Z.of_nat 307) with 307%Z. lra.
Qed.

Lemma pow10_m324_underflows (y : R) : y <= -324 -> Rpower 10 y < float_tiny.
Proof.
  intros H. apply Rle_lt_trans with (Rpower 10 (- INR 324)).
  - apply Rle_Rpower; [lra|]. rewrite INR_IZR_INZ.
    change (Z.of_nat 324) with 324%Z. lra.
  - rewrite Rpower_Ropp, Rpower10_nat. unfold float_tiny.
    apply Rinv_lt_contravar.
    + apply Rmult_lt_0_compat; apply IZR_lt; reflexivity.
    + apply IZR_lt. vm_compute. reflexivity.
Qed.

Lemma Rpower10_inj (a b : R) : Rpower 10 a = Rpower 10 b -> a = b.
Proof.
  unfold Rpower. intros H. apply exp_inv in H.
  assert (Hln : 0 < ln 10) by (rewrite <- ln_1; apply ln_increasing; lra).
  apply Rmult_eq_reg_r in H; [exact H | lra].
Qed.

Lemma pow10_value_kept (y : R) :
  float_tiny <= Rpower 10 y <= float_max ->
  pow10_value (Fin y) = Fin (Rpower 10 y).
Proof.
  intros [H1 H2]. unfold pow10_value.
  destruct (Rlt_dec float_max (Rpower 10 y)); [lra|].
  destruct (Rlt_dec (Rpower 10 y) float_tiny); [lra | reflexivity].
Qed.

Lemma pow10_value_underflow (y : R) :
  Rpower 10 y < float_tiny -> pow10_value (Fin y) = Fin 0.
Proof.
  intros H. pose proof float_tiny_lt_1. pose proof float_max_ge_1.
  unfold pow10_value.
  destruct (Rlt_dec float_max (Rpower 10 y)); [lra|].
  destruct (Rlt_dec (Rpower 10 y) float_tiny); [reflexivity | lra].
Qed.

(** ** estimate_distance *)

(** When the operands and their quotient are finite floats, the quotient
    is the exact exponent. *)
Lemma exponent_finite (x mRSSI txPower : R) :
  - float_max <= mRSSI - x <= float_max ->
  - float_max <= 10 * txPower <= float_max ->
  - float_max <= exponent x mRSSI txPower <= float_max ->
  div_value (py_sub mRSSI x) (py_mul 10 txPower) =
  Fin (exponent x mRSSI txPower).
Proof.
  intros Hn Hd He. unfold py_sub, py_mul.
  rewrite (fround_fin _ Hn), (fround_fin _ Hd). cbn [div_value].
  now apply fround_fin.
Qed.

(** A finite quotient is the exact exponent or, over an infinite
    divisor, zero. *)
Lemma div_value_Fin_inv (x mRSSI txPower y : R) :
  div_value (py_sub mRSSI x) (py_mul 10 txPower) = Fin y ->
  y = exponent x mRSSI txPower \/ y = 0.
Proof.
  unfold py_sub, py_mul.
  destruct (fround (mRSSI - x)) as [n| | |] eqn:En;
    destruct (fround (10 * txPower)) as [d| | |] eqn:Ed;
    cbn [div_value]; try discriminate;
    try (intros [= <-]; now right);
    try (destruct (Rlt_dec 0 d); discriminate).
  intros H. apply fround_Fin_inv in H, En, Ed. subst. now left.
Qed.

Lemma estimate_distance_ok (x mRSSI txPower : R) :
  txPower <> 0 -> exponent x mRSSI txPower <= 308 ->
  estimate_distance x mRSSI txPower = Ret (distance x mRSSI txPower).
Proof.
  intros Ht He. unfold estimate_distance, distance.
  rewrite py_truediv_ok by now apply py_mul_nonzero.
  cbn [mbind Py_bind py_bind]. apply py_pow10_ok.
  intros y Hy. apply pow10_308_fits.
  apply div_value_Fin_inv in Hy as [-> | ->]; lra.
Qed.

Lemma estimate_distance_overflow (x mRSSI txPower : R) :
  txPower <> 0 ->
  - float_max <= mRSSI - x <= float_max ->
  - float_max <= 10 * txPower <= float_max ->
  - float_max <= exponent x mRSSI txPower <= float_max ->
  float_max < Rpower 10 (exponent x mRSSI txPower) ->
  estimate_distance x mRSSI txPower = Raise OverflowError.
Proof.
  intros Ht Hn Hd He Hp. unfold estimate_distance.
  rewrite py_truediv_ok by now apply py_mul_nonzero.
  cbn [mbind Py_bind py_bind]. rewrite exponent_finite by assumption.
  now apply py_pow10_overflow.
Qed.

Lemma estimate_distance_zero_exponent (x mRSSI : R) :
  estimate_distance x mRSSI 0 = Raise ZeroDivisionError.
Proof.
  unfold estimate_distance, py_mul.
  rewrite Rmult_0_r, fround_0, py_truediv_zero. reflexivity.
Qed.

(** C5, as stated, fails: with the reference parameters (-59, 2) the
    sample -32768 gives the exponent 1635.45, and the code raises
    OverflowError where the claim has it saturate. *)
Lemma estimate_distance_raises :
  exponent (-32768) (-59) 2 = 32709 / 20 /\
  estimate_distance (-32768) (-59) 2 = Raise OverflowError.
Proof.
  split; [unfold exponent; field|].
  pose proof float_max_large.
  apply estimate_distance_overflow; unfold exponent; try lra.
  apply pow10_309_overflows. lra.
Qed.

Lemma estimate_distance_quotient_overflow (x mRSSI txPower : R) :
  txPower <> 0 ->
  - float_max <= mRSSI - x <= float_max ->
  - float_max <= 10 * txPower <= float_max ->
  (float_max < exponent x mRSSI txPower ->
   estimate_distance x mRSSI txPower = Ret PInf) /\
  (exponent x mRSSI txPower < - float_max ->
   estimate_distance x mRSSI txPower = Ret (Fin 0)).
Proof.
  intros Ht Hn Hd. unfold estimate_distance.
  rewrite py_truediv_ok by now apply py_mul_nonzero.
  unfold py_sub, py_mul. rewrite (fround_fin _ Hn), (fround_fin _ Hd).
  cbn [mbind Py_bind py_bind div_value]. fold (exponent x mRSSI txPower).
  split; intros He.
  - now rewrite fround_pinf.
  - now rewrite fround_ninf.
Qed.

(** C5, amended.  With finite operands and a non-zero path-loss
    exponent: when the quotient (mRSSI - x) / (10 * txPower) is a finite
    float, the result is 10 to that power if the power is within the
    float range, 0.0 if the power is too small for a float, and
    OverflowError if the power is beyond the largest float; when the
    quotient itself is beyond the float range the result is [inf] for a
    positive and 0.0 for a negative quotient.  For [x = mRSSI] and
    [txPower > 0] the result is exactly 1. *)
Theorem estimate_distance_spec (x mRSSI txPower : R) :
  (txPower <> 0 ->
   - float_max <= mRSSI - x <= float_max ->
   - float_max <= 10 * txPower <= float_max ->
   (- float_max <= (mRSSI - x) / (10 * txPower) <= float_max ->
    (float_tiny <= Rpower 10 ((mRSSI - x) / (10 * txPower)) <= float_max ->
     estimate_distance x mRSSI txPower =
     Ret (Fin (Rpower 10 ((mRSSI - x) / (10 * txPower))))) /\
    (Rpower 10 ((mRSSI - x) / (10 * txPower)) < float_tiny ->
     estimate_distance x mRSSI txPower = Ret (Fin 0)) /\
    (float_max < Rpower 10 ((mRSSI - x) / (10 * txPower)) ->
     estimate_distance x mRSSI txPower = Raise OverflowError)) /\
   (float_max < (mRSSI - x) / (10 * txPower) ->
    estimate_distance x mRSSI txPower = Ret PInf) /\
   ((mRSSI - x) / (10 * txPower) < - float_max ->
    estimate_distance x mRSSI txPower = Ret (Fin 0))) /\
  (0 < txPower -> estimate_distance mRSSI mRSSI txPower = Ret (Fin 1)).
Proof.
  fold (exponent x mRSSI txPower). split.
  - intros Ht Hn Hd. split; [|now apply estimate_distance_quotient_overflow].
    intros He.
    assert (Hq : estimate_distance x mRSSI txPower =
                 py_pow10 (Fin (exponent x mRSSI txPower))).
    { unfold estimate_distance.
      rewrite py_truediv_ok by now apply py_mul_nonzero.
      cbn [mbind Py_bind py_bind]. now rewrite exponent_finite. }
    rewrite Hq. split; [|split].
    + intros Hp. rewrite py_pow10_ok by (intros y [= <-]; lra).
      now rewrite pow10_value_kept.
    + intros Hp. pose proof float_tiny_lt_1. pose proof float_max_ge_1.
      rewrite py_pow10_ok by (intros y [= <-]; lra).
      now rewrite pow10_value_underflow.
    + apply py_pow10_overflow.
  - intros Ht. unfold estimate_distance.
    rewrite py_truediv_ok by (apply py_mul_nonzero; lra).
    cbn [mbind Py_bind py_bind].
    assert (Hq : div_value (py_sub mRSSI mRSSI) (py_mul 10 txPower) = Fin 0).
    { unfold py_sub, py_mul. rewrite Rminus_diag, fround_0.
      destruct (fround (10 * txPower)) as [d| | |] eqn:Ed;
        cbn [div_value]; try reflexivity.
      - apply fround_Fin_inv in Ed. subst d.
        replace (0 / (10 * txPower)) with 0 by (field; lra).
        apply fround_0.
      - unfold fround in Ed.
        destruct (Rlt_dec float_max (10 * txPower)); [discriminate|].
        destruct (Rlt_dec (10 * txPower) (- float_max)); discriminate. }
    rewrite Hq. pose proof float_tiny_lt_1. pose proof float_max_ge_1.
    rewrite py_pow10_ok by (intros y [= <-]; rewrite Rpower_O; lra).
    rewrite pow10_value_kept by (rewrite Rpower_O; lra).
    now rewrite Rpower_O by lra.
Qed.

Lemma estimate_distance_spec_witness :
  estimate_distance (-79) (-59) 2 =
    Ret (Fin (Rpower 10 ((-59 - -79) / (10 * 2)))) /\
  estimate_distance 32767 (-59) 2 = Ret (Fin 0) /\
  estimate_distance (-6239) (-59) 2 = Raise OverflowError /\
  estimate_distance (-60) (-59) (/ IZR (10 ^ 320)) = Ret PInf /\
  estimate_distance (-58) (-59) (/ IZR (10 ^ 320)) = Ret (Fin 0) /\
  estimate_distance (-59) (-59) 2 = Ret (Fin 1).
Proof.
  pose proof float_max_large as Hl.
  assert (Hbig : float_max < IZR (10 ^ 319))
    by (unfold float_max; apply IZR_lt; vm_compute; reflexivity).
  assert (Hpos : 0 < IZR (10 ^ 320)) by (apply IZR_lt; reflexivity).
  assert (Hsmall : 0 < / IZR (10 ^ 320) <= 1).
  { split; [now apply Rinv_0_lt_compat|].
    rewrite <- Rinv_1. apply Rinv_le_contravar; [lra|].
    apply IZR_le. vm_compute. discriminate. }
  assert (H320 : IZR (10 ^ 320) = 10 * IZR (10 ^ 319))
    by (rewrite <- mult_IZR; apply f_equal; vm_compute; reflexivity).
  destruct (estimate_distance_spec (-79) (-59) 2) as (H1 & _).
  destruct H1 as ((H1 & _ & _) & _ & _); try lra.
  destruct (estimate_distance_spec 32767 (-59) 2) as (H2 & _).
  destruct H2 as ((_ & H2 & _) & _ & _); try lra.
  destruct (estimate_distance_spec (-6239) (-59) 2) as (H3 & _).
  destruct H3 as ((_ & _ & H3) & _ & _); try lra.
  destruct (estimate_distance_spec (-60) (-59) (/ IZR (10 ^ 320)))
    as (H4 & _).
  destruct H4 as (_ & H4 & _); try lra.
  destruct (estimate_distance_spec (-58) (-59) (/ IZR (10 ^ 320)))
    as (H5 & _).
  destruct H5 as (_ & _ & H5); try lra.
  destruct (estimate_distance_spec (-59) (-59) 2) as (_ & H6).
  repeat split.
  - apply H1.
    split; [apply pow10_m307_kept | apply pow10_308_fits]; lra.
  - apply H2. apply pow10_m324_underflows. lra.
  - apply H3. apply pow10_309_overflows. lra.
  - apply H4.
    replace ((-59 - -60) / (10 * / IZR (10 ^ 320))) with (IZR (10 ^ 319))
      by (rewrite H320; field; lra).
    exact Hbig.
  - apply H5.
    replace ((-59 - -58) / (10 * / IZR (10 ^ 320))) with (- IZR (10 ^ 319))
      by (rewrite H320; field; lra).
    lra.
  - apply H6. lra.
Defined.

(** ** KalmanFilter *)

Lemma filter_outputs_length (xs : list R) :
  forall test, length (filter_outputs test xs) = length xs.
Proof.
  induction xs as [|x xs IH]; intros test; simpl; [reflexivity|].
  destruct (KalmanFilter_filter test x) as [y test']. simpl. now rewrite IH.
Qed.

Lemma filter_outputs_app (xs ys : list R) :
  forall test,
  filter_outputs test (xs ++ ys) =
  filter_outputs test xs ++ filter_outputs (filter_state test xs) ys.
Proof.
  induction xs as [|x xs IH]; intros test; simpl; [reflexivity|].
  destruct (KalmanFilter_filter test x) as [y test']. simpl. now rewrite IH.
Qed.

(** The filter never looks ahead: its outputs on a prefix do not depend
    on what follows. *)
Lemma filter_outputs_prefix (xs ys : list R) (test : KalmanFilter) :
  firstn (length xs) (filter_outputs test (xs ++ ys)) = filter_outputs test xs.
Proof.
  rewrite filter_outputs_app.
  rewrite <- (filter_outputs_length xs test) at 1.
  rewrite firstn_app, Nat.sub_diag, firstn_all. simpl. apply app_nil_r.
Qed.

(** On a constant input the output is that constant, whatever the noise
    parameters. *)
Lemma filter_outputs_constant (c : R) (n : nat) :
  forall test, estimate test = None \/ estimate test = Some c ->
  filter_outputs test (repeat c n) = repeat c n /\
  (n <> 0%nat -> estimate (filter_state test (repeat c n)) = Some c).
Proof.
  induction n as [|n IH]; intros test Hest; simpl; [tauto|].
  assert (Hy : fst (KalmanFilter_filter test c) = c /\
               estimate (snd (KalmanFilter_filter test c)) = Some c).
  { unfold KalmanFilter_filter.
    destruct Hest as [-> | ->]; simpl; split; try f_equal; ring. }
  destruct (KalmanFilter_filter test c) as [y test']. simpl in *.
  destruct Hy as [-> Hy]. destruct (IH test' (or_intror Hy)) as [IH1 IH2].
  rewrite IH1. split; [reflexivity|]. intros _.
  destruct n; [exact Hy | now apply IH2].
Qed.

Section Hull.

(** A property of RSSI values kept by every step towards a sample:
    if [u] and [v] have it, so has every value between them. *)
Variable P : R -> Prop.
Hypothesis P_between :
  forall u v g, 0 <= g <= 1 -> P u -> P v -> P (u + g * (v - u)).

Lemma KalmanFilter_new_ok (q r : R) :
  0 < q -> 0 <= r -> kf_ok P (KalmanFilter_new q r).
Proof. intros Hq Hr. repeat split; simpl; try lra. discriminate. Qed.

Lemma gain_range (cov q r : R) :
  0 <= cov -> 0 < q -> 0 <= r ->
  0 <= (cov + q) / (cov + q + r) <= 1.
Proof.
  intros Hc Hq Hr. split.
  - apply Rle_mult_inv_pos; lra.
  - apply (Rmult_le_reg_r (cov + q + r)); [lra|].
    unfold Rdiv. rewrite Rmult_assoc, Rinv_l by lra. lra.
Qed.

Lemma KalmanFilter_filter_ok (test : KalmanFilter) (x : R) :
  kf_ok P test -> P x ->
  P (fst (KalmanFilter_filter test x)) /\
  kf_ok P (snd (KalmanFilter_filter test x)).
Proof.
  intros (Hq & Hr & Hc & He) Hx. unfold KalmanFilter_filter.
  set (ec := match estimate test with
             | None => (x, 1)
             | Some e => (e, error_covariance test)
             end).
  assert (Hec : P (fst ec) /\ 0 <= snd ec).
  { subst ec. destruct (estimate test) as [e|]; simpl; split;
      auto; lra. }
  destruct ec as [est cov]. simpl in Hec. destruct Hec as [Pest Hcov].
  pose proof (gain_range cov _ _ Hcov Hq Hr) as Hg.
  simpl. split; [now apply P_between|].
  repeat split; simpl; try assumption.
  - apply Rmult_le_pos; lra.
  - intros e [= <-]. now apply P_between.
Qed.

Lemma filter_outputs_ok (xs : list R) :
  forall test, kf_ok P test -> Forall P xs ->
  Forall P (filter_outputs test xs).
Proof.
  induction xs as [|x xs IH]; intros test Hok Hxs; simpl; [constructor|].
  inversion Hxs as [|? ? Hx Hrest]; subst.
  destruct (KalmanFilter_filter_ok test x Hok Hx) as [Hy Hok'].
  destruct (KalmanFilter_filter test x) as [y test']. simpl in *.
  constructor; [exact Hy | now apply IH].
Qed.

End Hull.

(** ** distanceCalculate *)

(** Values whose distance is a float for sure: exponent at most 308. *)
Lemma exponent_between (mRSSI txPower u v g : R) :
  txPower <> 0 -> 0 <= g <= 1 ->
  exponent u mRSSI txPower <= 308 -> exponent v mRSSI txPower <= 308 ->
  exponent (u + g * (v - u)) mRSSI txPower <= 308.
Proof.
  intros Ht Hg Hu Hv.
  replace (exponent (u + g * (v - u)) mRSSI txPower)
    with ((1 - g) * exponent u mRSSI txPower + g * exponent v mRSSI txPower)
    by (unfold exponent; field; lra).
  assert (H1 : (1 - g) * exponent u mRSSI txPower <= (1 - g) * 308)
    by (apply Rmult_le_compat_l; lra).
  assert (H2 : g * exponent v mRSSI txPower <= g * 308)
    by (apply Rmult_le_compat_l; lra).
  lra.
Qed.

Lemma distance_loop_cons (mRSSI txPower : R) (test : KalmanFilter)
    (x : Z) (rest : list Z) (rawA filtA : list pyfloat) :
  distance_loop mRSSI txPower test (x :: rest) rawA filtA =
  (raw_distance ← estimate_distance (IZR x) mRSSI txPower;
   filtered_distance ←
     estimate_distance (fst (KalmanFilter_filter test (IZR x))) mRSSI txPower;
   distance_loop mRSSI txPower (snd (KalmanFilter_filter test (IZR x))) rest
     (rawA ++ [raw_distance]) (filtA ++ [filtered_distance])).
Proof.
  simpl. now destruct (KalmanFilter_filter test (IZR x)).
Qed.

Lemma distance_loop_ok (mRSSI txPower : R) (xs : list Z) :
  txPower <> 0 ->
  forall test rawA filtA,
  kf_ok (fun v => exponent v mRSSI txPower <= 308) test ->
  Forall (fun x => exponent (IZR x) mRSSI txPower <= 308) xs ->
  distance_loop mRSSI txPower test xs rawA filtA =
  Ret (rawA ++ map (fun x => distance (IZR x) mRSSI txPower) xs,
       filtA ++ map (fun v => distance v mRSSI txPower)
                  (filter_outputs test (map IZR xs))).
Proof.
  intros Ht. induction xs as [|x xs IH]; intros test rawA filtA Hok Hxs.
  - simpl. now rewrite !app_nil_r.
  - inversion Hxs as [|? ? Hx Hrest]; subst.
    rewrite distance_loop_cons.
    destruct (KalmanFilter_filter_ok _
                (fun u v g => exponent_between mRSSI txPower u v g Ht)
                test (IZR x) Hok Hx) as [Hy Hok'].
    rewrite estimate_distance_ok by assumption.
    cbn -[distance_loop]. rewrite estimate_distance_ok by assumption.
    cbn -[distance_loop]. rewrite IH by assumption.
    simpl. destruct (KalmanFilter_filter test (IZR x)) as [y test'].
    simpl. now rewrite <- !app_assoc.
Qed.

Lemma stdev_short (h : list Z) :
  (length h < 2)%nat -> stdev h = Raise StatisticsError.
Proof.
  intros H. unfold stdev.
  destruct (Nat.ltb_spec (length h) 2); [reflexivity | lia].
Qed.

Lemma stdev_long (h : list Z) :
  (2 <= length h)%nat -> stdev h = Ret (sample_sd (map IZR h)).
Proof.
  intros H. unfold stdev.
  destruct (Nat.ltb_spec (length h) 2); [lia | reflexivity].
Qed.

Lemma sample_sd_nonneg (xs : list R) : 0 <= sample_sd xs.
Proof. apply sqrt_pos. Qed.

(** The series a successful run returns. *)
Lemma distanceCalculate_returns (rssi_dict : gmap string (list Z))
    (mac_address : string) (mRSSI txPower : R) (h : list Z) :
  rssi_dict !! mac_address = Some h ->
  (2 <= length h)%nat ->
  txPower <> 0 ->
  Forall (fun x => exponent (IZR x) mRSSI txPower <= 308) h ->
  distanceCalculate rssi_dict mac_address mRSSI txPower =
  Ret (mkSeries
         (map (fun x => distance (IZR x) mRSSI txPower) h)
         (map (fun v => distance v mRSSI txPower)
            (filter_outputs
               (KalmanFilter_new (8 / 1000) (sample_sd (map IZR h)))
               (map IZR h)))).
Proof.
  intros Hh Hlen Ht Hxs. unfold distanceCalculate, getitem.
  rewrite Hh. cbn. rewrite stdev_long by exact Hlen. cbn.
  rewrite distance_loop_ok; try assumption; [reflexivity|].
  apply KalmanFilter_new_ok; [lra | apply sample_sd_nonneg].
Qed.

Lemma distanceCalculate_first_raises (rssi_dict : gmap string (list Z))
    (mac_address : string) (mRSSI txPower : R) (x : Z) (rest : list Z)
    (e : exn) :
  rssi_dict !! mac_address = Some (x :: rest) ->
  (1 <= length rest)%nat ->
  estimate_distance (IZR x) mRSSI txPower = Raise e ->
  distanceCalculate rssi_dict mac_address mRSSI txPower = Raise e.
Proof.
  intros Hh Hlen He. unfold distanceCalculate, getitem.
  rewrite Hh. cbn -[distance_loop]. rewrite stdev_long by (simpl; lia).
  cbn -[distance_loop]. rewrite distance_loop_cons, He. reflexivity.
Qed.

Lemma one_history_lookup (h : list Z) : one_history h !! beacon1 = Some h.
Proof. apply lookup_insert_eq. Qed.

(** C7, as stated, fails on its last part: two histories of two samples
    on which the run does not succeed.  With the reference parameters
    (-59, 2) and the samples -32768 the first distance is beyond the
    float range; with a path-loss exponent of 0 the division fails. *)
Lemma distanceCalculate_two_samples_raise :
  distanceCalculate (one_history [-32768; -32768]%Z) beacon1 (-59) 2 =
    Raise OverflowError /\
  distanceCalculate (one_history [-60; -61]%Z) beacon1 (-59) 0 =
    Raise ZeroDivisionError.
Proof.
  split.
  - apply distanceCalculate_first_raises with (-32768)%Z [(-32768)%Z];
      [apply one_history_lookup | simpl; lia |].
    pose proof float_max_large.
    apply estimate_distance_overflow; unfold exponent; try lra.
    apply pow10_309_overflows. lra.
  - apply distanceCalculate_first_raises with (-60)%Z [(-61)%Z];
      [apply one_history_lookup | simpl; lia |].
    apply estimate_distance_zero_exponent.
Qed.

(** C7, amended: the run raises KeyError for an address that is not in
    the dict and StatisticsError for a history of fewer than two
    samples; for a history of at least two samples it returns, with one
    raw and one filtered distance per sample, provided the path-loss
    exponent is not zero and every sample's exponent
    (mRSSI - x) / (10 * txPower) is at most 308. *)
Theorem distanceCalculate_outcomes (rssi_dict : gmap string (list Z))
    (mac_address : string) (mRSSI txPower : R) :
  (rssi_dict !! mac_address = None ->
   distanceCalculate rssi_dict mac_address mRSSI txPower = Raise KeyError) /\
  (forall h, rssi_dict !! mac_address = Some h -> (length h < 2)%nat ->
   distanceCalculate rssi_dict mac_address mRSSI txPower =
   Raise StatisticsError) /\
  (forall h, rssi_dict !! mac_address = Some h -> (2 <= length h)%nat ->
   txPower <> 0 ->
   Forall (fun x => exponent (IZR x) mRSSI txPower <= 308) h ->
   exists s, distanceCalculate rssi_dict mac_address mRSSI txPower = Ret s /\
     raw s = map (fun x => distance (IZR x) mRSSI txPower) h /\
     filtered s =
       map (fun v => distance v mRSSI txPower)
         (filter_outputs
            (KalmanFilter_new (8 / 1000) (sample_sd (map IZR h)))
            (map IZR h)) /\
     length (raw s) = length h /\ length (filtered s) = length h).
Proof.
  split; [|split].
  - intros Hn. unfold distanceCalculate, getitem. now rewrite Hn.
  - intros h Hh Hlen. unfold distanceCalculate, getitem.
    rewrite Hh. cbn. now rewrite stdev_short.
  - intros h Hh Hlen Ht Hxs. eexists. split.
    + now apply distanceCalculate_returns with (h := h).
    + cbn [raw filtered]. repeat split.
      * apply length_map.
      * now rewrite length_map, filter_outputs_length, length_map.
Qed.

Lemma distanceCalculate_outcomes_witness :
  distanceCalculate (one_history [-60; -61]%Z) "E0:35:2F:E6:42:46" (-59) 2 =
    Raise KeyError /\
  distanceCalculate (one_history [-60]%Z) beacon1 (-59) 2 =
    Raise StatisticsError /\
  exists s, distanceCalculate (one_history [-60; -61]%Z) beacon1 (-59) 2 =
              Ret s /\
    raw s = [distance (-60) (-59) 2; distance (-61) (-59) 2] /\
    length (filtered s) = 2%nat.
Proof.
  assert (Hthird :
    exists s, distanceCalculate (one_history [-60; -61]%Z) beacon1 (-59) 2 =
                Ret s /\
      raw s = map (fun x => distance (IZR x) (-59) 2) [-60; -61]%Z /\
      filtered s =
        map (fun v => distance v (-59) 2)
          (filter_outputs
             (KalmanFilter_new (8 / 1000)
                (sample_sd (map IZR [-60; -61]%Z)))
             (map IZR [-60; -61]%Z)) /\
      length (raw s) = 2%nat /\ length (filtered s) = 2%nat).
  { apply (distanceCalculate_outcomes (one_history [-60; -61]%Z) beacon1
             (-59) 2) with (h := [-60; -61]%Z);
      [apply one_history_lookup | simpl; lia | lra |].
    repeat first [apply Forall_nil_2
                 | apply Forall_cons_2; [unfold exponent; lra|]]. }
  split; [|split].
  - apply (distanceCalculate_outcomes (one_history [-60; -61]%Z)
             "E0:35:2F:E6:42:46" (-59) 2).
    reflexivity.
  - apply (distanceCalculate_outcomes (one_history [-60]%Z) beacon1 (-59) 2)
      with (h := [(-60)%Z]); [apply one_history_lookup | simpl; lia].
  - destruct Hthird as (s & Hs & Hraw & _ & _ & Hlen).
    exists s. split; [exact Hs|]. split; [exact Hraw | exact Hlen].
Defined.

(** ** No look-ahead *)

(** Whatever the parameters, a distance that is returned is the value of
    the formula. *)
Lemma py_truediv_inv (a b q : pyfloat) :
  py_truediv a b = Ret q -> q = div_value a b /\ b <> Fin 0.
Proof.
  unfold py_truediv. destruct b as [d| | |];
    try (intros [= <-]; split; [reflexivity | discriminate]).
  destruct (Req_dec_T d 0) as [->|Hd]; [discriminate|].
  intros [= <-]. split; [reflexivity|]. intros [= ->]. contradiction.
Qed.

Lemma py_pow10_inv (e v : pyfloat) :
  py_pow10 e = Ret v ->
  v = pow10_value e /\ (forall y, e = Fin y -> Rpower 10 y <= float_max).
Proof.
  unfold py_pow10. destruct e as [y| | |];
    try (intros [= <-]; split; [reflexivity | discriminate]).
  destruct (Rlt_dec float_max (Rpower 10 y)) as [|Hle]; [discriminate|].
  intros [= <-]. split; [reflexivity|]. intros y' [= <-]. lra.
Qed.

Lemma estimate_distance_inv (x mRSSI txPower : R) (v : pyfloat) :
  estimate_distance x mRSSI txPower = Ret v -> v = distance x mRSSI txPower.
Proof.
  unfold estimate_distance, distance.
  destruct (py_truediv _ _) as [q|] eqn:Eq;
    cbn [mbind Py_bind py_bind]; [|discriminate].
  apply py_truediv_inv in Eq as [-> _].
  intros H. now apply py_pow10_inv in H as [-> _].
Qed.

Lemma distance_loop_inv (mRSSI txPower : R) (xs : list Z) :
  forall test rawA filtA r f,
  distance_loop mRSSI txPower test xs rawA filtA = Ret (r, f) ->
  f = filtA ++ map (fun v => distance v mRSSI txPower)
                 (filter_outputs test (map IZR xs)).
Proof.
  induction xs as [|x xs IH]; intros test rawA filtA r f H.
  - simpl in H. injection H as _ <-. simpl. now rewrite app_nil_r.
  - rewrite distance_loop_cons in H.
    destruct (estimate_distance (IZR x) mRSSI txPower) as [v1|] eqn:E1;
      cbn -[distance_loop] in H; [|discriminate].
    destruct (estimate_distance (fst (KalmanFilter_filter test (IZR x)))
                mRSSI txPower) as [v2|] eqn:E2;
      cbn -[distance_loop] in H; [|discriminate].
    apply IH in H. apply estimate_distance_inv in E2. subst v2 f.
    simpl. destruct (KalmanFilter_filter test (IZR x)) as [y test'].
    simpl. now rewrite <- app_assoc.
Qed.

Lemma distanceCalculate_inv (h : list Z) (mRSSI txPower : R)
    (s : DistanceSeries) :
  distanceCalculate (one_history h) beacon1 mRSSI txPower = Ret s ->
  filtered s =
  map (fun v => distance v mRSSI txPower)
    (filter_outputs (KalmanFilter_new (8 / 1000) (sample_sd (map IZR h)))
       (map IZR h)).
Proof.
  unfold distanceCalculate, getitem. rewrite one_history_lookup.
  cbn -[distance_loop]. unfold stdev.
  destruct (length h <? 2)%nat; cbn -[distance_loop]; [discriminate|].
  destruct (distance_loop _ _ _ _ _ _) as [[r f]|] eqn:E;
    cbn; [|discriminate].
  intros [= <-]. simpl. now apply distance_loop_inv in E.
Qed.

Lemma sample_sd_three : sample_sd (map IZR [-60; -54; -48]%Z) = 6.
Proof.
  unfold sample_sd, sum_sq_dev, mean. simpl.
  replace (_ / _) with (6 * 6) by field.
  apply sqrt_square. lra.
Qed.

Lemma sample_sd_four : sample_sd (map IZR [-60; -54; -48; -52]%Z) = 5.
Proof.
  unfold sample_sd, sum_sq_dev, mean. simpl.
  replace (_ / _) with (5 * 5) by field.
  apply sqrt_square. lra.
Qed.

Lemma second_output_sd6 :
  nth 1 (filter_outputs (KalmanFilter_new (8 / 1000) 6)
           (map IZR [-60; -54; -48]%Z)) 0 = - (1857096 / 31349).
Proof. simpl. field. Qed.

Lemma second_output_sd5 :
  nth 1 (filter_outputs (KalmanFilter_new (8 / 1000) 5)
           (map IZR [-60; -54; -48; -52]%Z)) 0 = - (16227777 / 274438).
Proof. simpl. field. Qed.

Lemma nth_map_distance (mRSSI txPower : R) (l : list R) (i : nat) (d : R) :
  (i < length l)%nat ->
  nth i (map (fun v => distance v mRSSI txPower) l) 0 =
  distance (nth i l d) mRSSI txPower.
Proof.
  intros H.
  rewrite (nth_indep _ (Fin 0) (distance d mRSSI txPower))
    by now rewrite length_map.
  apply (map_nth (fun v => distance v mRSSI txPower)).
Qed.

(** For operands of everyday size the float value is the formula's. *)
Lemma distance_kept (x mRSSI txPower : R) :
  - float_max <= mRSSI - x <= float_max ->
  - float_max <= 10 * txPower <= float_max ->
  -307 <= exponent x mRSSI txPower <= 308 ->
  distance x mRSSI txPower = Fin (Rpower 10 (exponent x mRSSI txPower)).
Proof.
  intros Hn Hd He. pose proof float_max_large. unfold distance.
  rewrite exponent_finite by (trivial; lra).
  apply pow10_value_kept.
  split; [apply pow10_m307_kept | apply pow10_308_fits]; lra.
Qed.

(** C3, as stated, fails: the history [-60, -54, -48] and its extension
    by -52 have standard deviations 6 and 5, and with the reference
    parameters (-59, 2) both runs return but their filtered values at
    index 1 differ. *)
Lemma filtered_depends_on_later_sample :
  exists s s',
    distanceCalculate (one_history [-60; -54; -48]%Z) beacon1 (-59) 2 = Ret s /\
    distanceCalculate (one_history [-60; -54; -48; -52]%Z) beacon1 (-59) 2 =
      Ret s' /\
    nth 1 (filtered s) 0 <> nth 1 (filtered s') 0.
Proof.
  eexists. eexists. split; [|split].
  - apply distanceCalculate_returns with (h := [-60; -54; -48]%Z);
      [apply one_history_lookup | simpl; lia | lra |].
    repeat constructor; unfold exponent; lra.
  - apply distanceCalculate_returns with (h := [-60; -54; -48; -52]%Z);
      [apply one_history_lookup | simpl; lia | lra |].
    repeat constructor; unfold exponent; lra.
  - cbn [filtered]. rewrite sample_sd_three, sample_sd_four.
    rewrite !(nth_map_distance _ _ _ _ 0)
      by (rewrite filter_outputs_length; simpl; lia).
    rewrite second_output_sd6, second_output_sd5.
    pose proof float_max_large as Hl.
    rewrite !distance_kept by (unfold exponent; lra).
    intros [= Hp]. apply Rpower10_inj in Hp. unfold exponent in Hp. lra.
Qed.

(** C3, amended.  The filter itself never looks ahead: its outputs on
    a prefix are the same whatever follows.  In [distanceCalculate] the
    measurement noise is the standard deviation of the whole history, so
    a run on [h] and a run on an extension [h ++ ext] agree on the
    filtered values at the indices of [h] when the two standard
    deviations are equal; and they agree on [-60, -60, -60] and its
    extension by [-40], where the common prefix is constant. *)
Theorem filtered_prefix_unchanged (mRSSI txPower : R) :
  (forall test xs ys,
     firstn (length xs) (filter_outputs test (xs ++ ys)) =
     filter_outputs test xs) /\
  (forall h ext, (2 <= length h)%nat -> txPower <> 0 ->
     Forall (fun x => exponent (IZR x) mRSSI txPower <= 308) (h ++ ext) ->
     sample_sd (map IZR (h ++ ext)) = sample_sd (map IZR h) ->
     exists s s',
       distanceCalculate (one_history h) beacon1 mRSSI txPower = Ret s /\
       distanceCalculate (one_history (h ++ ext)) beacon1 mRSSI txPower =
         Ret s' /\
       firstn (length h) (filtered s') = filtered s) /\
  (forall s s',
     distanceCalculate (one_history [-60; -60; -60]%Z) beacon1 mRSSI txPower =
       Ret s ->
     distanceCalculate (one_history [-60; -60; -60; -40]%Z) beacon1
       mRSSI txPower = Ret s' ->
     length (filtered s) = 3%nat /\
     firstn 3 (filtered s') = filtered s) /\
  (txPower <> 0 ->
   exponent (-60) mRSSI txPower <= 308 ->
   exponent (-40) mRSSI txPower <= 308 ->
   exists s s',
     distanceCalculate (one_history [-60; -60; -60]%Z) beacon1 mRSSI txPower =
       Ret s /\
     distanceCalculate (one_history [-60; -60; -60; -40]%Z) beacon1
       mRSSI txPower = Ret s').
Proof.
  split; [|split; [|split]].
  - intros test xs ys. apply filter_outputs_prefix.
  - intros h ext Hlen Ht Hxs Hsd.
    eexists. eexists. split; [|split].
    + apply distanceCalculate_returns with (h := h);
        [apply one_history_lookup | exact Hlen | exact Ht |].
      apply Forall_app in Hxs. tauto.
    + apply distanceCalculate_returns with (h := h ++ ext);
        [apply one_history_lookup | | exact Ht | exact Hxs].
      rewrite length_app. lia.
    + cbn [filtered]. rewrite Hsd, map_app, firstn_map.
      rewrite <- (length_map IZR h). now rewrite filter_outputs_prefix.
  - intros s s' Hs Hs'.
    apply distanceCalculate_inv in Hs, Hs'. rewrite Hs, Hs'. split.
    + rewrite length_map, filter_outputs_length. reflexivity.
    + rewrite firstn_map.
      change (map IZR [-60; -60; -60; -40]%Z) with (repeat (-60) 3 ++ [-40]).
      change (map IZR [-60; -60; -60]%Z) with (repeat (-60) 3).
      rewrite (filter_outputs_prefix (repeat (-60) 3) [-40]).
      f_equal.
      destruct (filter_outputs_constant (-60) 3
                  (KalmanFilter_new (8 / 1000)
                     (sample_sd (repeat (-60) 3 ++ [-40])))) as [-> _];
        [now left|].
      destruct (filter_outputs_constant (-60) 3
                  (KalmanFilter_new (8 / 1000)
                     (sample_sd (repeat (-60) 3)))) as [-> _];
        [now left|].
      reflexivity.
  - intros Ht H60 H40.
    eexists. eexists. split.
    + apply distanceCalculate_returns with (h := [-60; -60; -60]%Z);
        [apply one_history_lookup | simpl; lia | exact Ht |].
      repeat first [apply Forall_nil_2 | apply Forall_cons_2; [assumption|]].
    + apply distanceCalculate_returns with (h := [-60; -60; -60; -40]%Z);
        [apply one_history_lookup | simpl; lia | exact Ht |].
      repeat first [apply Forall_nil_2 | apply Forall_cons_2; [assumption|]].
Qed.

Lemma filtered_prefix_unchanged_witness :
  (exists s s',
     distanceCalculate (one_history [-60; -57; -60]%Z) beacon1 (-59) 2 =
       Ret s /\
     distanceCalculate (one_history ([-60; -57; -60] ++ [-57])%Z) beacon1
       (-59) 2 = Ret s' /\
     firstn 3 (filtered s') = filtered s) /\
  (exists s s',
     distanceCalculate (one_history [-60; -60; -60]%Z) beacon1 (-59) 2 =
       Ret s /\
     distanceCalculate (one_history [-60; -60; -60; -40]%Z) beacon1 (-59) 2 =
       Ret s' /\
     length (filtered s) = 3%nat /\
     firstn 3 (filtered s') = filtered s).
Proof.
  destruct (filtered_prefix_unchanged (-59) 2) as (_ & H2 & H3 & H4).
  split.
  - apply (H2 [-60; -57; -60]%Z [(-57)%Z]).
    + simpl. lia.
    + lra.
    + repeat first [apply Forall_nil_2
                   | apply Forall_cons_2; [unfold exponent; lra|]].
    + unfold sample_sd, sum_sq_dev, mean. simpl. f_equal. field.
  - destruct H4 as (s & s' & Hs & Hs');
      [lra | unfold exponent; lra | unfold exponent; lra |].
    exists s, s'. split; [exact Hs|]. split; [exact Hs'|].
    exact (H3 s s' Hs Hs').
Defined.

(** * Further properties of the decoders *)

Local Close Scope R_scope.
Local Open Scope Z_scope.

(** ** Bytes, hex and the struct readers *)

Lemma byte_val_inj (a b : byte) : byte_val a = byte_val b -> a = b.
Proof.
  unfold byte_val. intros H. apply N2Z.inj in H.
  pose proof (Byte.of_to_N a) as Ha. rewrite H, Byte.of_to_N in Ha.
  congruence.
Qed.

Lemma unpack_H_range (hi lo : byte) : 0 <= unpack_H hi lo <= 65535.
Proof.
  unfold unpack_H. pose proof (byte_val_range hi). pose proof (byte_val_range lo).
  lia.
Qed.

Lemma unpack_H_inj (a1 a0 b1 b0 : byte) :
  unpack_H a1 a0 = unpack_H b1 b0 -> a1 = b1 /\ a0 = b0.
Proof.
  unfold unpack_H. intros H.
  pose proof (byte_val_range a1). pose proof (byte_val_range a0).
  pose proof (byte_val_range b1). pose proof (byte_val_range b0).
  split; apply byte_val_inj; lia.
Qed.

Lemma unpack_b_range (b : byte) : -128 <= unpack_b b <= 127.
Proof.
  unfold unpack_b. pose proof (byte_val_range b).
  destruct (Z.ltb_spec (byte_val b) 128); lia.
Qed.

Lemma unpack_b_inj (a b : byte) : unpack_b a = unpack_b b -> a = b.
Proof.
  unfold unpack_b. intros H. apply byte_val_inj.
  pose proof (byte_val_range a). pose proof (byte_val_range b).
  destruct (Z.ltb_spec (byte_val a) 128), (Z.ltb_spec (byte_val b) 128); lia.
Qed.

Lemma hex_digit_inj (n m : N) :
  (n < 16)%N -> (m < 16)%N -> hex_digit n = hex_digit m -> n = m.
Proof.
  intros Hn Hm.
  rewrite <- (N2Nat.id n), <- (N2Nat.id m).
  assert (Hi : (N.to_nat n < 16)%nat) by lia.
  assert (Hj : (N.to_nat m < 16)%nat) by lia.
  generalize dependent (N.to_nat m). generalize dependent (N.to_nat n).
  intros i Hi j Hj.
  do 16 (try (destruct i as [|i])); try (exfalso; lia);
    do 16 (try (destruct j as [|j])); try (exfalso; lia);
    cbn; intros H; solve [reflexivity | discriminate H].
Qed.

Lemma hex_cons_inj (a b : byte) : 
  (Byte.to_N a / 16 = Byte.to_N b / 16)%N ->
  (Byte.to_N a mod 16 = Byte.to_N b mod 16)%N -> a = b.
Proof.
  intros Hq Hr. apply byte_val_inj. unfold byte_val. f_equal.
  rewrite (N.div_mod (Byte.to_N a) 16), (N.div_mod (Byte.to_N b) 16) by lia.
  now rewrite Hq, Hr.
Qed.

Lemma hex_inj (a : bytes) : forall b, hex a = hex b -> a = b.
Proof.
  induction a as [|x a IH]; intros [|y b] H; simpl in H;
    try discriminate; [reflexivity|].
  injection H as H1 H2 H3.
  pose proof (Byte.to_N_bounded x). pose proof (Byte.to_N_bounded y).
  f_equal; [|now apply IH].
  apply hex_cons_inj; apply hex_digit_inj; trivial;
    try (apply N.Div0.div_lt_upper_bound; lia);
    try (apply N.mod_lt; lia).
Qed.

Lemma hex_length (a : bytes) : String.length (hex a) = (2 * length a)%nat.
Proof. induction a as [|x a IH]; simpl; [reflexivity | rewrite IH; lia]. Qed.

Lemma slice_firstn (data : bytes) (n lo hi : nat) :
  (hi <= n)%nat -> slice (firstn n data) lo hi = slice data lo hi.
Proof.
  intros H. unfold slice. rewrite skipn_firstn_comm, firstn_firstn.
  f_equal. lia.
Qed.

Lemma unpack_HHb_exact (buf : bytes) :
  length buf = 5%nat ->
  buf = [nth 0 buf x00; nth 1 buf x00; nth 2 buf x00; nth 3 buf x00;
         nth 4 buf x00] /\
  unpack_HHb buf =
  Ret (unpack_H (nth 0 buf x00) (nth 1 buf x00),
       unpack_H (nth 2 buf x00) (nth 3 buf x00),
       unpack_b (nth 4 buf x00)).
Proof.
  intros H. do 5 (destruct buf as [|? buf]; [discriminate H|]).
  destruct buf; [|discriminate H]. split; reflexivity.
Qed.

Lemma nth_slice (data : bytes) (lo hi i : nat) :
  (lo + i < hi)%nat -> nth i (slice data lo hi) x00 = nth (lo + i) data x00.
Proof.
  intros H. unfold slice. rewrite nth_firstn.
  destruct (Nat.ltb_spec i (hi - lo)); [|lia].
  rewrite nth_skipn. reflexivity.
Qed.

(** ** parse_ibeacon *)

(** The record of a matching buffer, by byte index. *)
Lemma parse_ibeacon_layout (buf : bytes) :
  firstn 4 buf = ibeacon_prefix -> (25 <= length buf)%nat ->
  parse_ibeacon buf =
  Ret (Some (iBeacon (hex (slice buf 4 20))
               (unpack_H (nth 20 buf x00) (nth 21 buf x00))
               (unpack_H (nth 22 buf x00) (nth 23 buf x00))
               (unpack_b (nth 24 buf x00)))).
Proof.
  intros Hp Hlen. unfold parse_ibeacon, parse_ibeacon_body.
  assert (E : bytes_eqb (slice buf 0 4) ibeacon_prefix = true)
    by (apply bytes_eqb_eq; exact Hp).
  rewrite E. cbn [negb].
  destruct (unpack_HHb_exact (slice buf 20 25)) as [_ ->].
  { rewrite slice_length. lia. }
  rewrite !nth_slice by lia. reflexivity.
Qed.

Lemma parse_ibeacon_none (buf : bytes) :
  firstn 4 buf <> ibeacon_prefix \/ (length buf < 25)%nat ->
  parse_ibeacon buf = Ret None.
Proof.
  intros H. unfold parse_ibeacon, parse_ibeacon_body.
  destruct (bytes_eqb (slice buf 0 4) ibeacon_prefix) eqn:E; simpl.
  - apply bytes_eqb_eq in E. unfold slice in E. simpl in E.
    destruct H as [H|H]; [contradiction|].
    rewrite unpack_HHb_short; [reflexivity|].
    rewrite slice_length. lia.
  - reflexivity.
Qed.

Lemma parse_ibeacon_some_inv (buf : bytes) (r : BeaconRecord) :
  parse_ibeacon buf = Ret (Some r) ->
  firstn 4 buf = ibeacon_prefix /\ (25 <= length buf)%nat.
Proof.
  intros Hr.
  destruct (List.list_eq_dec Byte.byte_eq_dec (firstn 4 buf) ibeacon_prefix)
    as [Hp | Hp].
  - split; [exact Hp|].
    destruct (Nat.le_gt_cases 25 (length buf)) as [Hl | Hl]; [exact Hl|].
    rewrite parse_ibeacon_none in Hr by (right; exact Hl). discriminate.
  - rewrite parse_ibeacon_none in Hr by (left; exact Hp). discriminate.
Qed.

(** X1: [parse_ibeacon] returns a record exactly when the buffer starts
    with [4C 00 02 15] and has at least 25 bytes. *)
Theorem parse_ibeacon_some_iff (buf : bytes) :
  (exists r, parse_ibeacon buf = Ret (Some r)) <->
  firstn 4 buf = ibeacon_prefix /\ (25 <= length buf)%nat.
Proof.
  split.
  - intros [r Hr]. now apply parse_ibeacon_some_inv with r.
  - intros [Hp Hl]. eexists. now apply parse_ibeacon_layout.
Qed.

Lemma parse_ibeacon_some_iff_witness :
  (exists r, parse_ibeacon ibeacon_vector = Ret (Some r)) /\
  ~ (exists r, parse_ibeacon (firstn 24 ibeacon_vector) = Ret (Some r)).
Proof.
  split.
  - apply (parse_ibeacon_some_iff ibeacon_vector).
    split; [reflexivity | simpl; lia].
  - intros H. apply (parse_ibeacon_some_iff (firstn 24 ibeacon_vector)) in H.
    destruct H as [_ H]. simpl in H. lia.
Defined.

(** X2: every record [parse_ibeacon] returns is an iBeacon record whose
    uuid has 32 characters, whose major and minor are within 0..65535
    and whose tx_power is within -128..127. *)
Theorem parse_ibeacon_ranges (buf : bytes) (r : BeaconRecord) :
  parse_ibeacon buf = Ret (Some r) ->
  exists uuid major minor tx_power,
    r = iBeacon uuid major minor tx_power /\
    String.length uuid = 32%nat /\
    0 <= major <= 65535 /\ 0 <= minor <= 65535 /\
    -128 <= tx_power <= 127.
Proof.
  intros Hr. destruct (parse_ibeacon_some_inv buf r Hr) as [Hp Hl].
  rewrite parse_ibeacon_layout in Hr by assumption.
  injection Hr as <-. do 4 eexists. split; [reflexivity|].
  split; [|split; [|split]].
  - rewrite hex_length, slice_length. lia.
  - apply unpack_H_range.
  - apply unpack_H_range.
  - apply unpack_b_range.
Qed.

Lemma parse_ibeacon_ranges_witness :
  exists uuid major minor tx_power,
    iBeacon "00000000000000000000000000000000" 1 2 (-2) =
      iBeacon uuid major minor tx_power /\
    String.length uuid = 32%nat /\
    0 <= major <= 65535 /\ 0 <= minor <= 65535 /\
    -128 <= tx_power <= 127.
Proof.
  apply (parse_ibeacon_ranges ibeacon_vector). vm_compute. reflexivity.
Defined.

Lemma parse_ibeacon_firstn (buf : bytes) :
  parse_ibeacon (firstn 25 buf) = parse_ibeacon buf.
Proof.
  unfold parse_ibeacon, parse_ibeacon_body.
  now rewrite !slice_firstn by lia.
Qed.

Lemma firstn_25_parts (buf : bytes) :
  (25 <= length buf)%nat ->
  firstn 25 buf =
  firstn 4 buf ++ slice buf 4 20 ++
  [nth 20 buf x00; nth 21 buf x00; nth 22 buf x00; nth 23 buf x00;
   nth 24 buf x00].
Proof.
  intros H.
  do 25 (destruct buf as [|? buf]; [simpl in H; lia|]).
  reflexivity.
Qed.

(** X3: only the first 25 bytes of a buffer matter to [parse_ibeacon],
    and they are all in the record: two buffers that decode to the same
    record agree on their first 25 bytes. *)
Theorem parse_ibeacon_first_25 (a b : bytes) :
  (firstn 25 a = firstn 25 b -> parse_ibeacon a = parse_ibeacon b) /\
  (forall r, parse_ibeacon a = Ret (Some r) ->
             parse_ibeacon b = Ret (Some r) ->
             firstn 25 a = firstn 25 b).
Proof.
  split.
  - intros H. rewrite <- (parse_ibeacon_firstn a), <- (parse_ibeacon_firstn b).
    now rewrite H.
  - intros r Ha Hb.
    destruct (parse_ibeacon_some_inv a r Ha) as [Hpa Hla].
    destruct (parse_ibeacon_some_inv b r Hb) as [Hpb Hlb].
    rewrite parse_ibeacon_layout in Ha, Hb by assumption.
    rewrite <- Hb in Ha. injection Ha as Hu Hmaj Hmin Htx.
    apply hex_inj in Hu. apply unpack_H_inj in Hmaj as [H20 H21].
    apply unpack_H_inj in Hmin as [H22 H23]. apply unpack_b_inj in Htx.
    rewrite (firstn_25_parts a), (firstn_25_parts b) by assumption.
    now rewrite Hpa, Hpb, Hu, H20, H21, H22, H23, Htx.
Qed.

Lemma parse_ibeacon_first_25_witness :
  parse_ibeacon (ibeacon_vector ++ [xff; xff]) = parse_ibeacon ibeacon_vector /\
  firstn 25 (ibeacon_vector ++ [xff; xff]) = firstn 25 ibeacon_vector.
Proof.
  destruct (parse_ibeacon_first_25 (ibeacon_vector ++ [xff; xff])
              ibeacon_vector) as [H1 H2].
  split.
  - apply H1. reflexivity.
  - apply (H2 (iBeacon "00000000000000000000000000000000" 1 2 (-2)));
      vm_compute; reflexivity.
Defined.

(** ** parse_eddystone *)

(** X4: entries whose UUID does not start with [0000feaa-] never matter:
    the result is that of the Eddystone-tagged entries alone, and it is
    [None] when there is none (the empty mapping included). *)
Theorem parse_eddystone_ignores_others (service_data : list (string * bytes)) :
  parse_eddystone service_data =
  parse_eddystone
    (List.filter (fun e => startswith (fst e) eddystone_prefix) service_data) /\
  (first_eddystone service_data = None -> parse_eddystone service_data = Ret None).
Proof.
  unfold parse_eddystone. split.
  - f_equal. induction service_data as [|[uuid data] rest IH]; [reflexivity|].
    simpl. destruct (startswith uuid eddystone_prefix) eqn:E; simpl.
    + rewrite E. destruct (eddystone_entry data) as [[r|]|e]; cbn; congruence.
    + exact IH.
  - intros H. rewrite parse_eddystone_loop_no_entry; [reflexivity|].
    induction service_data as [|[uuid data] rest IH]; [constructor|].
    simpl in H. destruct (startswith uuid eddystone_prefix) eqn:E;
      [discriminate|]. apply Forall_cons_2; [exact E | now apply IH].
Qed.

Lemma parse_eddystone_ignores_others_witness :
  parse_eddystone [("0000180f-0000-1000-8000-00805f9b34fb"%string, [x64])] =
  Ret None.
Proof.
  apply (parse_eddystone_ignores_others
           [("0000180f-0000-1000-8000-00805f9b34fb"%string, [x64])]).
  reflexivity.
Defined.

(** X5: an exception in the first Eddystone-tagged entry ends the whole
    decode with [None], whatever the later entries hold: this is so for
    empty data, for a UID or URL frame of the type byte alone, and for a
    URL frame whose text is not valid UTF-8. *)
Theorem parse_eddystone_malformed_first
    (pre post : list (string * bytes)) (uuid : string) (data : bytes) :
  Forall (fun e => startswith (fst e) eddystone_prefix = false) pre ->
  startswith uuid eddystone_prefix = true ->
  data = [] \/ data = [x00] \/ data = [x10] \/
  (exists tx payload e,
     data = x10 :: tx :: payload /\ utf8_decode payload = Raise e) ->
  parse_eddystone (pre ++ (uuid, data) :: post) = Ret None.
Proof.
  intros Hpre Hu Hd. unfold parse_eddystone.
  rewrite parse_eddystone_loop_skip by exact Hpre.
  cbn [parse_eddystone_loop]. rewrite Hu.
  destruct Hd as [-> | [-> | [-> | (tx & payload & e & -> & He)]]];
    try reflexivity.
  unfold eddystone_entry.
  change (getbyte (x10 :: tx :: payload) 0) with (Ret 16 : Py Z).
  change (slice_from (x10 :: tx :: payload) 2) with payload.
  cbn -[utf8_decode]. now rewrite He.
Qed.

Lemma parse_eddystone_malformed_first_witness :
  parse_eddystone [(eddystone_uuid, []);
                   ("0000feaa-0000-1000-8000-00805f9b34fc"%string,
                    url_vector)] = Ret None /\
  parse_eddystone [(eddystone_uuid, [x10; xec; xff]);
                   ("0000feaa-0000-1000-8000-00805f9b34fc"%string,
                    uid_vector)] = Ret None.
Proof.
  split.
  - apply (parse_eddystone_malformed_first []
             [("0000feaa-0000-1000-8000-00805f9b34fc"%string, url_vector)]
             eddystone_uuid []); [constructor | reflexivity | now left].
  - apply (parse_eddystone_malformed_first []
             [("0000feaa-0000-1000-8000-00805f9b34fc"%string, uid_vector)]
             eddystone_uuid [x10; xec; xff]); [constructor | reflexivity |].
    right. right. right. exists xec, [xff], UnicodeDecodeError.
    split; reflexivity.
Defined.

Lemma getbyte_range (data : bytes) (i : nat) (v : Z) :
  getbyte data i = Ret v -> 0 <= v <= 255.
Proof.
  unfold getbyte. destruct (nth_error data i); [|discriminate].
  intros [= <-]. apply byte_val_range.
Qed.

Lemma eddystone_entry_shape (data : bytes) (r : BeaconRecord) :
  eddystone_entry data = Ret (Some r) ->
  (exists namespace instance tx_power,
     r = Eddystone_UID namespace instance tx_power /\
     0 <= tx_power <= 255 /\
     (String.length namespace <= 20)%nat /\
     (String.length instance <= 12)%nat) \/
  (exists url tx_power,
     r = Eddystone_URL url tx_power /\ 0 <= tx_power <= 255).
Proof.
  unfold eddystone_entry.
  destruct (getbyte data 0) as [ft|]; cbn -[utf8_decode slice];
    [|discriminate].
  destruct (ft =? 0).
  - destruct (getbyte data 1) as [tx|] eqn:Etx; cbn -[slice]; [|discriminate].
    intros [= <-]. left. do 3 eexists. split; [reflexivity|].
    split; [now apply getbyte_range in Etx|].
    rewrite !hex_length, !slice_length. lia.
  - destruct (ft =? 16); [|discriminate].
    destruct (utf8_decode _) as [url|]; cbn; [|discriminate].
    destruct (getbyte data 1) as [tx|] eqn:Etx; cbn; [|discriminate].
    intros [= <-]. right. do 2 eexists. split; [reflexivity|].
    now apply getbyte_range in Etx.
Qed.

(** X6: a record that [parse_eddystone] returns is the decoding of one
    of the Eddystone-tagged entries of the mapping; it is a UID record
    with at most 20 and 12 hex characters, or a URL record, never an
    iBeacon record, and its tx_power is within 0..255. *)
Theorem parse_eddystone_record (service_data : list (string * bytes))
    (r : BeaconRecord) :
  parse_eddystone service_data = Ret (Some r) ->
  (exists uuid data,
     In (uuid, data) service_data /\
     startswith uuid eddystone_prefix = true /\
     eddystone_entry data = Ret (Some r)) /\
  ((exists namespace instance tx_power,
      r = Eddystone_UID namespace instance tx_power /\
      0 <= tx_power <= 255 /\
      (String.length namespace <= 20)%nat /\
      (String.length instance <= 12)%nat) \/
   (exists url tx_power,
      r = Eddystone_URL url tx_power /\ 0 <= tx_power <= 255)).
Proof.
  intros H.
  assert (Hsrc : exists uuid data,
     In (uuid, data) service_data /\
     startswith uuid eddystone_prefix = true /\
     eddystone_entry data = Ret (Some r)).
  { unfold parse_eddystone in H.
    induction service_data as [|[uuid data] rest IH]; [discriminate H|].
    cbn [parse_eddystone_loop] in H.
    destruct (startswith uuid eddystone_prefix) eqn:E.
    - destruct (eddystone_entry data) as [[r'|]|e] eqn:Er; cbn in H.
      + injection H as ->. exists uuid, data. split; [now left | now split].
      + destruct (IH H) as (u & d & Hin & Hu & Hd).
        exists u, d. split; [now right | now split].
      + discriminate H.
    - destruct (IH H) as (u & d & Hin & Hu & Hd).
      exists u, d. split; [now right | now split]. }
  split; [exact Hsrc|].
  destruct Hsrc as (u & d & _ & _ & Hd). now apply eddystone_entry_shape in Hd.
Qed.

Lemma parse_eddystone_record_witness :
  exists uuid data,
    In (uuid, data) tlm_then_url /\
    startswith uuid eddystone_prefix = true /\
    eddystone_entry data = Ret (Some (Eddystone_URL (str_of "http://x") 236)).
Proof.
  apply (parse_eddystone_record tlm_then_url). vm_compute. reflexivity.
Defined.

Lemma utf8_decode_ascii (payload : bytes) :
  Forall (fun b => (Byte.to_N b < 128)%N) payload ->
  utf8_decode payload = Ret (map Byte.to_N payload).
Proof.
  induction 1 as [|b payload Hb _ IH]; [reflexivity|].
  cbn [utf8_decode map]. apply N.ltb_lt in Hb. rewrite Hb, IH. reflexivity.
Qed.

(** X7: a URL frame whose text bytes are all below 0x80 decodes to
    exactly those bytes as characters, one per byte: the Eddystone
    scheme and suffix codes (0x00 to 0x0d) are kept as control
    characters, not expanded.  Entries before it without the prefix and
    all entries after it play no part. *)
Theorem parse_eddystone_url_ascii
    (pre post : list (string * bytes)) (uuid : string)
    (tx : byte) (payload : bytes) :
  Forall (fun e => startswith (fst e) eddystone_prefix = false) pre ->
  startswith uuid eddystone_prefix = true ->
  Forall (fun b => (Byte.to_N b < 128)%N) payload ->
  parse_eddystone (pre ++ (uuid, x10 :: tx :: payload) :: post) =
  Ret (Some (Eddystone_URL (map Byte.to_N payload) (byte_val tx))).
Proof.
  intros Hpre Hu Hp. unfold parse_eddystone.
  rewrite parse_eddystone_loop_skip by exact Hpre.
  cbn [parse_eddystone_loop]. rewrite Hu. unfold eddystone_entry.
  change (getbyte (x10 :: tx :: payload) 0) with (Ret 16 : Py Z).
  change (slice_from (x10 :: tx :: payload) 2) with payload.
  cbn -[utf8_decode]. rewrite utf8_decode_ascii by exact Hp. reflexivity.
Qed.

Lemma parse_eddystone_url_ascii_witness :
  parse_eddystone [(eddystone_uuid, [x10; xec; x03; x78; x07])] =
  Ret (Some (Eddystone_URL [3; 120; 7]%N 236)).
Proof.
  apply (parse_eddystone_url_ascii [] [] eddystone_uuid xec [x03; x78; x07]).
  - constructor.
  - reflexivity.
  - repeat first [apply Forall_nil_2 | apply Forall_cons_2; [reflexivity|]].
Defined.

(** X8: a UID frame of at least 18 bytes decodes by position: byte 1
    is the tx power, bytes 2..11 the namespace, bytes 12..17 the
    instance; bytes after the 18th (the two reserved bytes of a real
    frame) are ignored. *)
Theorem parse_eddystone_uid_layout
    (pre post : list (string * bytes)) (uuid : string)
    (tx : byte) (namespace instance rest : bytes) :
  Forall (fun e => startswith (fst e) eddystone_prefix = false) pre ->
  startswith uuid eddystone_prefix = true ->
  length namespace = 10%nat -> length instance = 6%nat ->
  parse_eddystone
    (pre ++ (uuid, x00 :: tx :: namespace ++ instance ++ rest) :: post) =
  Ret (Some (Eddystone_UID (hex namespace) (hex instance) (byte_val tx))).
Proof.
  intros Hpre Hu Hn Hi. unfold parse_eddystone.
  rewrite parse_eddystone_loop_skip by exact Hpre.
  cbn [parse_eddystone_loop]. rewrite Hu, eddystone_entry_uid.
  assert (E1 : firstn 10 (namespace ++ instance ++ rest) = namespace).
  { rewrite <- Hn. rewrite firstn_app, Nat.sub_diag, firstn_all.
    cbn [firstn]. apply app_nil_r. }
  assert (E2 : firstn 6 (skipn 10 (namespace ++ instance ++ rest)) = instance).
  { rewrite <- Hn, skipn_app, Nat.sub_diag, skipn_all.
    change ([] ++ skipn 0 (instance ++ rest)) with (instance ++ rest).
    rewrite <- Hi, firstn_app, Nat.sub_diag, firstn_all.
    cbn [firstn]. apply app_nil_r. }
  now rewrite E1, E2.
Qed.

Lemma parse_eddystone_uid_layout_witness :
  parse_eddystone [(eddystone_uuid, uid_vector ++ [x00; x00])] =
  Ret (Some (Eddystone_UID "01010101010101010101" "020202020202" 235)).
Proof.
  apply (parse_eddystone_uid_layout [] [] eddystone_uuid xeb
           (repeat x01 10) (repeat x02 6) [x00; x00]);
    [constructor | reflexivity | reflexivity | reflexivity].
Defined.

(** * Further properties of the recorder *)

(** X9: two [record_data] calls for different addresses can be swapped;
    for the same address and different values they cannot. *)
Theorem record_data_commute (d : gmap string (list Z)) (a b : string)
    (r s : Z) :
  (a <> b ->
   (d1 ← record_data d a r; record_data d1 b s) =
   (d2 ← record_data d b s; record_data d2 a r)) /\
  (r <> s ->
   (d1 ← record_data d a r; record_data d1 a s) <>
   (d2 ← record_data d a s; record_data d2 a r)).
Proof.
  split.
  - intros Hab. rewrite !record_data_spec. cbn. rewrite !record_data_spec.
    rewrite !lookup_insert_ne by congruence.
    f_equal. apply insert_insert_ne. congruence.
  - intros Hrs. rewrite !record_data_spec. cbn. rewrite !record_data_spec.
    rewrite !lookup_insert_eq, !insert_insert_eq. cbn.
    intros [= H].
    assert (H' : (<[a:=(default [] (d !! a) ++ [r]) ++ [s]]> d) !! a =
                 (<[a:=(default [] (d !! a) ++ [s]) ++ [r]]> d) !! a)
      by now rewrite H.
    rewrite !lookup_insert_eq in H'. injection H' as H'.
    rewrite <- !app_assoc in H'. apply app_inv_head in H'.
    injection H' as H'. contradiction.
Qed.

Lemma record_data_commute_witness :
  (d1 ← record_data two_devices "EC:81:F6:64:F0:86" (-61);
   record_data d1 "EC:BF:B3:25:D5:6C" (-80)) =
  (d2 ← record_data two_devices "EC:BF:B3:25:D5:6C" (-80);
   record_data d2 "EC:81:F6:64:F0:86" (-61)) /\
  (d1 ← record_data two_devices "EC:81:F6:64:F0:86" (-61);
   record_data d1 "EC:81:F6:64:F0:86" (-62)) <>
  (d2 ← record_data two_devices "EC:81:F6:64:F0:86" (-62);
   record_data d2 "EC:81:F6:64:F0:86" (-61)).
Proof.
  split.
  - apply (record_data_commute two_devices "EC:81:F6:64:F0:86"
             "EC:BF:B3:25:D5:6C" (-61) (-80)). discriminate.
  - apply (record_data_commute two_devices "EC:81:F6:64:F0:86"
             "EC:81:F6:64:F0:86" (-61) (-62)). discriminate.
Defined.

Lemma record_all_app (e1 e2 : list (string * Z)) :
  forall d : gmap string (list Z),
  record_all d (e1 ++ e2) = (d1 ← record_all d e1; record_all d1 e2).
Proof.
  induction e1 as [|[a r] e1 IH]; intros d; [reflexivity|].
  cbn [record_all app]. rewrite record_data_spec. cbn. apply IH.
Qed.

(** X10: on a recorder that already holds histories, a run of calls
    returns and only appends: each history that was there is a prefix
    of the new one, extended by the values recorded for its address in
    call order; an address gets a history only by being recorded; and
    two runs one after the other are the run of the concatenation. *)
Theorem record_all_append_only (d : gmap string (list Z))
    (events : list (string * Z)) :
  exists d', record_all d events = Ret d' /\
    (forall a l, d !! a = Some l ->
                 d' !! a = Some (l ++ recorded a events)) /\
    (forall a, d !! a = None -> seen a events = false -> d' !! a = None) /\
    (forall more, record_all d (events ++ more) = record_all d' more).
Proof.
  destruct (record_all_lookup events d) as (d' & Hd' & Hl).
  exists d'. split; [exact Hd'|]. split; [|split].
  - intros a l Ha. now rewrite Hl, Ha.
  - intros a Ha Hs. now rewrite Hl, Ha, Hs.
  - intros more. now rewrite record_all_app, Hd'.
Qed.

Lemma record_all_append_only_witness :
  exists d',
    record_all two_devices
      [("EC:81:F6:64:F0:86"%string, -61); ("EC:81:F6:64:F0:86"%string, -62)] =
      Ret d' /\
    d' !! "EC:81:F6:64:F0:86"%string = Some [-60; -61; -62] /\
    d' !! "EC:BF:B3:25:D5:6C"%string = None.
Proof.
  destruct (record_all_append_only two_devices
              [("EC:81:F6:64:F0:86"%string, -61);
               ("EC:81:F6:64:F0:86"%string, -62)])
    as (d' & H1 & H2 & H3 & _).
  exists d'. split; [exact H1|]. split.
  - apply (H2 "EC:81:F6:64:F0:86"%string [-60]). reflexivity.
  - apply H3; reflexivity.
Defined.

(** X11: the recorder never stores an empty history: if none is empty
    before a run of calls, none is empty after it; so every history of a
    recorder that started fresh has at least one sample. *)
Theorem record_all_nonempty (d : gmap string (list Z))
    (events : list (string * Z)) :
  (forall a l, d !! a = Some l -> l <> []) ->
  exists d', record_all d events = Ret d' /\
    forall a l, d' !! a = Some l -> l <> [].
Proof.
  intros Hd. destruct (record_all_lookup events d) as (d' & Hd' & Hl).
  exists d'. split; [exact Hd'|]. intros a l. rewrite Hl.
  destruct (d !! a) as [l0|] eqn:Ea.
  - intros [= <-] H. apply app_eq_nil in H as [H _]. now apply (Hd a l0).
  - destruct (seen a events) eqn:Es; [|discriminate].
    intros [= <-] H. apply seen_recorded in H. congruence.
Qed.

Lemma record_all_nonempty_witness :
  exists d', record_all RecordRSSI_init [("EC:81:F6:64:F0:86"%string, -61)] =
               Ret d' /\
    forall a l, d' !! a = Some l -> l <> [].
Proof.
  apply (record_all_nonempty RecordRSSI_init
           [("EC:81:F6:64:F0:86"%string, -61)]).
  intros a l H. unfold RecordRSSI_init in H. rewrite lookup_empty in H.
  discriminate H.
Defined.

(** * Properties of the scan loop *)

Lemma parse_ibeacon_returns (buf : bytes) : exists r, parse_ibeacon buf = Ret r.
Proof.
  unfold parse_ibeacon. destruct (parse_ibeacon_body buf); simpl; eauto.
Qed.

Lemma parse_eddystone_returns (service_data : list (string * bytes)) :
  exists r, parse_eddystone service_data = Ret r.
Proof.
  unfold parse_eddystone.
  destruct (parse_eddystone_loop service_data); simpl; eauto.
Qed.

Lemma ibeacon_loop_returns (items : list (Z * bytes)) :
  ibeacon_loop items = Ret tt.
Proof.
  induction items as [|[id data] rest IH]; [reflexivity|].
  cbn [ibeacon_loop]. destruct (parse_ibeacon_returns data) as [r ->].
  exact IH.
Qed.

Lemma scan_device_spec (record : gmap string (list Z))
    (beaconfilter : list string) (entry : BLEDevice * AdvertisementData) :
  scan_device record beaconfilter entry =
  if existsb (String.eqb (address (fst entry))) beaconfilter
  then record_data record (address (fst entry)) (rssi (snd entry))
  else Ret record.
Proof.
  destruct entry as [device adv]. unfold scan_device. cbn [fst snd].
  destruct (existsb _ beaconfilter); [|reflexivity].
  cbn [negb]. rewrite record_data_spec.
  assert (H1 : match manufacturer_data adv with
               | [] => Ret tt
               | m :: ms => ibeacon_loop (m :: ms)
               end = Ret tt)
    by (destruct (manufacturer_data adv); [reflexivity|];
        apply ibeacon_loop_returns).
  assert (H2 : match service_data adv with
               | [] => Ret tt
               | s :: ss => _ ← parse_eddystone (s :: ss); Ret tt
               end = Ret tt).
  { destruct (service_data adv) as [|s ss]; [reflexivity|].
    now destruct (parse_eddystone_returns (s :: ss)) as [r ->]. }
  cbn [mbind Py_bind py_bind]. rewrite H1. cbn [py_bind].
  rewrite H2. reflexivity.
Qed.

Lemma scan_for_beacons_spec (beaconfilter : list string)
    (devices : list (BLEDevice * AdvertisementData)) :
  forall record : gmap string (list Z),
  scan_for_beacons record beaconfilter devices =
  record_all record (scan_events beaconfilter devices).
Proof.
  induction devices as [|entry rest IH]; intros record; [reflexivity|].
  cbn [scan_for_beacons]. rewrite scan_device_spec.
  unfold scan_events. cbn [List.filter].
  destruct (existsb _ beaconfilter); cbn [map record_all].
  - rewrite record_data_spec. cbn. apply IH.
  - apply IH.
Qed.

Lemma recorded_app (a : string) (e1 e2 : list (string * Z)) :
  recorded a (e1 ++ e2) = recorded a e1 ++ recorded a e2.
Proof.
  induction e1 as [|[b r] e1 IH]; [reflexivity|].
  cbn [app recorded]. destruct (String.eqb b a); [|exact IH].
  now rewrite IH.
Qed.

Lemma recorded_unlisted (a : string) (beaconfilter : list string)
    (devices : list (BLEDevice * AdvertisementData)) :
  existsb (String.eqb a) beaconfilter = false ->
  recorded a (scan_events beaconfilter devices) = [].
Proof.
  intros Ha. unfold scan_events.
  induction devices as [|[device adv] rest IH]; [reflexivity|].
  cbn [List.filter fst].
  destruct (existsb (String.eqb (address device)) beaconfilter) eqn:E;
    [|exact IH].
  cbn [map recorded fst snd].
  destruct (String.eqb (address device) a) eqn:Eq; [|exact IH].
  apply String.eqb_eq in Eq. congruence.
Qed.

Lemma recorded_absent (a : string) (beaconfilter : list string)
    (devices : list (BLEDevice * AdvertisementData)) :
  ~ In a (map (fun e => address (fst e)) devices) ->
  recorded a (scan_events beaconfilter devices) = [].
Proof.
  intros Ha. unfold scan_events.
  induction devices as [|[device adv] rest IH]; [reflexivity|].
  cbn [map fst In] in Ha. cbn [List.filter fst].
  destruct (existsb (String.eqb (address device)) beaconfilter);
    [|apply IH; tauto].
  cbn [map recorded fst snd].
  destruct (String.eqb (address device) a) eqn:Eq; [|apply IH; tauto].
  apply String.eqb_eq in Eq. tauto.
Qed.

Lemma recorded_once (a : string) (beaconfilter : list string)
    (devices : list (BLEDevice * AdvertisementData)) :
  List.NoDup (map (fun e => address (fst e)) devices) ->
  (length (recorded a (scan_events beaconfilter devices)) <= 1)%nat.
Proof.
  induction devices as [|[device adv] rest IH]; intros Hnd; [simpl; lia|].
  cbn [map fst] in Hnd. inversion Hnd as [|? ? Hnotin Hnd']; subst.
  unfold scan_events. cbn [List.filter fst].
  destruct (existsb (String.eqb (address device)) beaconfilter);
    [|now apply IH].
  cbn [map recorded fst snd].
  destruct (String.eqb (address device) a) eqn:Eq; [|now apply IH].
  apply String.eqb_eq in Eq. subst a.
  fold (scan_events beaconfilter rest).
  rewrite (recorded_absent _ _ _ Hnotin). simpl. lia.
Qed.

(** X12: a scan never raises, whatever the advertisement payloads are;
    its effect on the recorder is one [record_data] call per discovered
    device whose address is in the filter, in order.  Histories of
    addresses outside the filter are untouched, and every history that
    was there is extended at its end. *)
Theorem scan_for_beacons_effect (record : gmap string (list Z))
    (beaconfilter : list string)
    (devices : list (BLEDevice * AdvertisementData)) :
  exists record',
    scan_for_beacons record beaconfilter devices = Ret record' /\
    record_all record (scan_events beaconfilter devices) = Ret record' /\
    (forall a, existsb (String.eqb a) beaconfilter = false ->
               record' !! a = record !! a) /\
    (forall a l, record !! a = Some l ->
       record' !! a =
       Some (l ++ recorded a (scan_events beaconfilter devices))).
Proof.
  destruct (record_all_lookup (scan_events beaconfilter devices) record)
    as (record' & Hr & Hl).
  exists record'. rewrite scan_for_beacons_spec.
  split; [exact Hr|]. split; [exact Hr|]. split.
  - intros a Ha. rewrite Hl.
    pose proof (recorded_unlisted a beaconfilter devices Ha) as Hrec.
    destruct (record !! a) as [l|].
    + now rewrite Hrec, app_nil_r.
    + apply seen_recorded in Hrec. now rewrite Hrec.
  - intros a l Ha. now rewrite Hl, Ha.
Qed.

Lemma scan_for_beacons_effect_witness :
  exists record',
    scan_for_beacons two_devices filter_beacons sample_scan = Ret record' /\
    record' !! "11:22:33:44:55:66"%string = None /\
    record' !! "EC:81:F6:64:F0:86"%string = Some [-60; -60] /\
    record' !! "E0:35:2F:E6:42:46"%string = Some [-70; -70].
Proof.
  destruct (scan_for_beacons_effect two_devices filter_beacons sample_scan)
    as (record' & H1 & _ & H3 & H4).
  exists record'. split; [exact H1|]. split; [|split].
  - rewrite H3; reflexivity.
  - rewrite (H4 "EC:81:F6:64:F0:86"%string [-60]); reflexivity.
  - rewrite (H4 "E0:35:2F:E6:42:46"%string [-70]); reflexivity.
Defined.

Lemma scan_rounds_spec (beaconfilter : list string)
    (rounds : list (list (BLEDevice * AdvertisementData))) :
  forall record : gmap string (list Z),
  scan_rounds record beaconfilter rounds =
  record_all record (concat (map (scan_events beaconfilter) rounds)).
Proof.
  induction rounds as [|devices rest IH]; intros record; [reflexivity|].
  cbn [scan_rounds map concat].
  rewrite scan_for_beacons_spec, record_all_app.
  destruct (record_all record (scan_events beaconfilter devices)) as [d|e];
    cbn; [apply IH | reflexivity].
Qed.

Lemma recorded_rounds_length (a : string) (beaconfilter : list string)
    (rounds : list (list (BLEDevice * AdvertisementData))) :
  Forall (fun devices => List.NoDup (map (fun e => address (fst e)) devices))
    rounds ->
  (length (recorded a (concat (map (scan_events beaconfilter) rounds)))
   <= length rounds)%nat.
Proof.
  induction 1 as [|devices rest Hd _ IH]; [simpl; lia|].
  cbn [map concat]. rewrite recorded_app, length_app.
  pose proof (recorded_once a beaconfilter devices Hd). simpl. lia.
Qed.

Lemma recorded_rounds_unlisted (a : string) (beaconfilter : list string)
    (rounds : list (list (BLEDevice * AdvertisementData))) :
  existsb (String.eqb a) beaconfilter = false ->
  recorded a (concat (map (scan_events beaconfilter) rounds)) = [].
Proof.
  intros Ha. induction rounds as [|devices rest IH]; [reflexivity|].
  cbn [map concat]. rewrite recorded_app, IH.
  now rewrite recorded_unlisted.
Qed.

Lemma recorded_In (a : string) (r : Z) (events : list (string * Z)) :
  In (a, r) events -> In r (recorded a events).
Proof.
  induction events as [|[b v] rest IH]; intros H; [contradiction|].
  cbn [recorded]. destruct H as [[= -> ->] | H].
  - rewrite String.eqb_refl. now left.
  - destruct (String.eqb b a); [right|]; now apply IH.
Qed.

Lemma scan_events_In (beaconfilter : list string)
    (devices : list (BLEDevice * AdvertisementData))
    (e : BLEDevice * AdvertisementData) :
  In e devices ->
  existsb (String.eqb (address (fst e))) beaconfilter = true ->
  In (address (fst e), rssi (snd e)) (scan_events beaconfilter devices).
Proof.
  intros Hin He. unfold scan_events.
  apply (in_map (fun e => (address (fst e), rssi (snd e)))).
  apply filter_In. now split.
Qed.

(** X13: after any number of scans on a fresh recorder, the history of
    every address is exactly the sequence of RSSI values the scans
    reported for it, scan after scan, and an address no scan reported
    has no history.  In particular every reported device whose address
    is in the filter has a history that holds its RSSI; addresses
    outside the filter have none; and when no scan lists an address
    twice (the discovered devices are the values of a dict keyed by
    address), a history has at least one and at most as many samples as
    there were scans. *)
Theorem scan_rounds_history (beaconfilter : list string)
    (rounds : list (list (BLEDevice * AdvertisementData))) :
  exists d,
    scan_rounds RecordRSSI_init beaconfilter rounds = Ret d /\
    (forall a, d !! a =
       if seen a (concat (map (scan_events beaconfilter) rounds))
       then Some (recorded a
                    (concat (map (scan_events beaconfilter) rounds)))
       else None) /\
    (forall devices e, In devices rounds -> In e devices ->
       existsb (String.eqb (address (fst e))) beaconfilter = true ->
       exists l, d !! address (fst e) = Some l /\ In (rssi (snd e)) l) /\
    (forall a, existsb (String.eqb a) beaconfilter = false -> d !! a = None) /\
    (Forall (fun devices =>
               List.NoDup (map (fun e => address (fst e)) devices)) rounds ->
     forall a l, d !! a = Some l -> (1 <= length l <= length rounds)%nat).
Proof.
  destruct (record_all_lookup
              (concat (map (scan_events beaconfilter) rounds))
              RecordRSSI_init) as (d & Hd & Hl).
  assert (Hall : forall a, d !! a =
            if seen a (concat (map (scan_events beaconfilter) rounds))
            then Some (recorded a
                         (concat (map (scan_events beaconfilter) rounds)))
            else None).
  { intros a. rewrite Hl. unfold RecordRSSI_init. now rewrite lookup_empty. }
  assert (Hget : forall a l, d !! a = Some l ->
            l = recorded a (concat (map (scan_events beaconfilter) rounds)) /\
            l <> []).
  { intros a l. rewrite Hall.
    destruct (seen a _) eqn:Es; [|discriminate].
    intros [= <-]. split; [reflexivity|].
    intros H. apply seen_recorded in H. congruence. }
  exists d. rewrite scan_rounds_spec.
  split; [exact Hd|]. split; [exact Hall|]. split; [|split].
  - intros devices e Hdev He Hf.
    assert (Hin : In (rssi (snd e))
                    (recorded (address (fst e))
                       (concat (map (scan_events beaconfilter) rounds)))).
    { apply recorded_In. apply in_concat.
      exists (scan_events beaconfilter devices). split.
      - now apply in_map.
      - now apply scan_events_In. }
    rewrite Hall.
    destruct (seen (address (fst e)) _) eqn:Es.
    + eexists. split; [reflexivity | exact Hin].
    + apply seen_recorded in Es. rewrite Es in Hin. contradiction.
  - intros a Ha. rewrite Hall.
    pose proof (recorded_rounds_unlisted a beaconfilter rounds Ha) as Hrec.
    apply seen_recorded in Hrec. now rewrite Hrec.
  - intros Hnd a l H. destruct (Hget a l H) as [-> Hne]. split.
    + destruct (recorded a _); [congruence | simpl; lia].
    + now apply recorded_rounds_length.
Qed.

Lemma scan_rounds_history_witness :
  exists d,
    scan_rounds RecordRSSI_init filter_beacons [sample_scan; sample_scan] =
      Ret d /\
    d !! "EC:81:F6:64:F0:86"%string = Some [-60; -60] /\
    (exists l, d !! "E0:35:2F:E6:42:46"%string = Some l /\ In (-70) l) /\
    d !! "11:22:33:44:55:66"%string = None /\
    (forall a l, d !! a = Some l -> (1 <= length l <= 2)%nat).
Proof.
  destruct (scan_rounds_history filter_beacons [sample_scan; sample_scan])
    as (d & H1 & H2 & H3 & H4 & H5).
  exists d. split; [exact H1|]. split; [|split; [|split]].
  - rewrite H2. reflexivity.
  - apply (H3 sample_scan
             (mkDevice "E0:35:2F:E6:42:46" None,
              mkAdvertisement (-70) [] [(eddystone_uuid, [])])).
    + now left.
    + right. right. now left.
    + reflexivity.
  - apply H4. reflexivity.
  - apply H5.
    repeat first
      [ apply Forall_nil_2
      | apply Forall_cons_2;
        [repeat constructor; simpl; intuition discriminate|] ].
Defined.

(** * Further properties of the distance computation *)

Local Open Scope R_scope.

Lemma pow10_value_nonneg (e : pyfloat) : nonneg_float (pow10_value e).
Proof.
  pose proof float_max_ge_1. destruct e as [y| | |]; cbn; try exact I; try lra.
  destruct (Rlt_dec float_max (Rpower 10 y)); [exact I|].
  destruct (Rlt_dec (Rpower 10 y) float_tiny); cbn; [lra|].
  split; [|lra]. unfold Rpower. apply Rlt_le, exp_pos.
Qed.

Lemma distance_nonneg (x mRSSI txPower : R) :
  nonneg_float (distance x mRSSI txPower).
Proof. apply pow10_value_nonneg. Qed.

Lemma estimate_distance_inv_full (x mRSSI txPower : R) (v : pyfloat) :
  estimate_distance x mRSSI txPower = Ret v ->
  v = distance x mRSSI txPower /\ txPower <> 0.
Proof.
  intros H. split; [now apply estimate_distance_inv|].
  intros ->. rewrite estimate_distance_zero_exponent in H. discriminate.
Qed.

Lemma exponent_decreasing (x x' mRSSI txPower : R) :
  0 < txPower -> x < x' ->
  exponent x' mRSSI txPower < exponent x mRSSI txPower.
Proof.
  intros Ht Hx. unfold exponent, Rdiv.
  apply Rmult_lt_compat_r; [|lra]. apply Rinv_0_lt_compat. lra.
Qed.

Lemma pow10_value_mono (y y' r r' : R) :
  y' <= y -> pow10_value (Fin y) = Fin r -> pow10_value (Fin y') = Fin r' ->
  r' <= r.
Proof.
  intros Hy. pose proof float_tiny_pos as Htiny.
  assert (Hp : Rpower 10 y' <= Rpower 10 y) by (apply Rle_Rpower; lra).
  assert (Hpos : 0 < Rpower 10 y') by (unfold Rpower; apply exp_pos).
  unfold pow10_value.
  destruct (Rlt_dec float_max (Rpower 10 y)); [discriminate|].
  destruct (Rlt_dec float_max (Rpower 10 y')); [discriminate|].
  destruct (Rlt_dec (Rpower 10 y) float_tiny);
    destruct (Rlt_dec (Rpower 10 y') float_tiny);
    intros [= <-] [= <-]; lra.
Qed.

(** X14: the distance expression of lines 130-131.  A returned distance
    is never negative: it is zero, a positive float, [inf] or [nan].
    For operands of finite size and an exponent within -307..307, a
    signal weaker by [10 * txPower] dB gives ten times the distance.
    For a positive path-loss exponent a stronger signal never gives a
    larger finite distance. *)
Theorem estimate_distance_scaling (x mRSSI txPower : R) :
  (forall d, estimate_distance x mRSSI txPower = Ret d -> nonneg_float d) /\
  (txPower <> 0 ->
   - float_max <= mRSSI - x <= float_max ->
   - float_max <= mRSSI - (x - 10 * txPower) <= float_max ->
   - float_max <= 10 * txPower <= float_max ->
   -307 <= (mRSSI - x) / (10 * txPower) <= 307 ->
   estimate_distance x mRSSI txPower =
     Ret (Fin (Rpower 10 ((mRSSI - x) / (10 * txPower)))) /\
   estimate_distance (x - 10 * txPower) mRSSI txPower =
     Ret (Fin (10 * Rpower 10 ((mRSSI - x) / (10 * txPower))))) /\
  (forall x' r r', 0 < txPower -> x < x' ->
     - float_max <= mRSSI - x <= float_max ->
     - float_max <= mRSSI - x' <= float_max ->
     estimate_distance x mRSSI txPower = Ret (Fin r) ->
     estimate_distance x' mRSSI txPower = Ret (Fin r') -> r' <= r).
Proof.
  fold (exponent x mRSSI txPower). split; [|split].
  - intros d H. apply estimate_distance_inv in H as ->.
    apply distance_nonneg.
  - intros Ht Hn Hn' Hd He. pose proof float_max_large.
    assert (E : exponent (x - 10 * txPower) mRSSI txPower =
                1 + exponent x mRSSI txPower)
      by (unfold exponent; field; exact Ht).
    split.
    + rewrite estimate_distance_ok by (trivial; lra).
      f_equal. apply distance_kept; trivial; lra.
    + rewrite estimate_distance_ok by (trivial; lra).
      f_equal. rewrite distance_kept by (trivial; lra).
      rewrite E, Rpower_plus, Rpower_1 by lra. reflexivity.
  - intros x' r r' Ht Hx Hn Hn' H H'.
    apply estimate_distance_inv in H, H'. unfold distance in H, H'.
    pose proof (exponent_decreasing x x' mRSSI txPower Ht Hx) as He.
    unfold py_sub in H, H'.
    rewrite (fround_fin _ Hn) in H. rewrite (fround_fin _ Hn') in H'.
    unfold py_mul in H, H'.
    destruct (fround (10 * txPower)) as [d| | |] eqn:Ed;
      cbn [div_value] in H, H'.
    + apply fround_Fin_inv in Ed. subst d.
      fold (exponent x mRSSI txPower) in H.
      fold (exponent x' mRSSI txPower) in H'.
      pose proof float_max_ge_1.
      unfold fround in H, H'.
      destruct (Rlt_dec float_max (exponent x mRSSI txPower));
        [discriminate H|].
      destruct (Rlt_dec float_max (exponent x' mRSSI txPower)); [lra|].
      destruct (Rlt_dec (exponent x mRSSI txPower) (- float_max)).
      * destruct (Rlt_dec (exponent x' mRSSI txPower) (- float_max));
          [|lra].
        cbn [pow10_value] in H, H'. injection H as ->. injection H' as ->.
        lra.
      * destruct (Rlt_dec (exponent x' mRSSI txPower) (- float_max)).
        -- cbn [pow10_value] in H'. injection H' as ->.
           symmetry in H.
           pose proof (pow10_value_nonneg (Fin (exponent x mRSSI txPower)))
             as Hnn.
           rewrite H in Hnn. cbn in Hnn. lra.
        -- symmetry in H, H'.
           apply (pow10_value_mono _ _ _ _ (Rlt_le _ _ He) H H').
    + cbn [pow10_value] in H, H'. rewrite Rpower_O in H, H' by lra.
      pose proof float_tiny_lt_1. pose proof float_max_ge_1.
      destruct (Rlt_dec float_max 1); [lra|].
      destruct (Rlt_dec 1 float_tiny); [lra|].
      injection H as ->. injection H' as ->. lra.
    + cbn [pow10_value] in H, H'. rewrite Rpower_O in H, H' by lra.
      pose proof float_tiny_lt_1. pose proof float_max_ge_1.
      destruct (Rlt_dec float_max 1); [lra|].
      destruct (Rlt_dec 1 float_tiny); [lra|].
      injection H as ->. injection H' as ->. lra.
    + unfold fround in Ed.
      destruct (Rlt_dec float_max (10 * txPower)); [discriminate|].
      destruct (Rlt_dec (10 * txPower) (- float_max)); discriminate.
Qed.

Lemma estimate_distance_scaling_witness :
  nonneg_float (Fin 0) /\
  estimate_distance (-59) (-59) 2 = Ret (Fin (Rpower 10 ((-59 - -59) / (10 * 2)))) /\
  estimate_distance (-59 - 10 * 2) (-59) 2 =
    Ret (Fin (10 * Rpower 10 ((-59 - -59) / (10 * 2)))) /\
  (forall r r', estimate_distance (-79) (-59) 2 = Ret (Fin r) ->
                estimate_distance (-59) (-59) 2 = Ret (Fin r') -> r' <= r).
Proof.
  pose proof float_max_large as Hl.
  destruct (estimate_distance_scaling 32767 (-59) 2) as (H1 & _ & _).
  destruct (estimate_distance_scaling (-59) (-59) 2) as (_ & H2 & _).
  destruct (estimate_distance_scaling (-79) (-59) 2) as (_ & _ & H3).
  split; [|split; [|split]].
  - apply H1.
    assert (Hd : distance 32767 (-59) 2 = Fin 0).
    { unfold distance. rewrite exponent_finite by (unfold exponent; lra).
      apply pow10_value_underflow, pow10_m324_underflows.
      unfold exponent. lra. }
    rewrite estimate_distance_ok by (unfold exponent; lra).
    now rewrite Hd.
  - apply H2; lra.
  - apply H2; lra.
  - intros r r'. apply H3; lra.
Defined.

Lemma distance_loop_inv_raw (mRSSI txPower : R) (xs : list Z) :
  forall test rawA filtA r f,
  distance_loop mRSSI txPower test xs rawA filtA = Ret (r, f) ->
  r = rawA ++ map (fun x => distance (IZR x) mRSSI txPower) xs /\
  f = filtA ++ map (fun v => distance v mRSSI txPower)
                 (filter_outputs test (map IZR xs)) /\
  (xs <> [] -> txPower <> 0).
Proof.
  induction xs as [|x xs IH]; intros test rawA filtA r f H.
  - simpl in H. injection H as <- <-. rewrite !app_nil_r.
    repeat split; congruence.
  - pose proof H as Hf. apply distance_loop_inv in Hf.
    rewrite distance_loop_cons in H.
    destruct (estimate_distance (IZR x) mRSSI txPower) as [v1|] eqn:E1;
      cbn -[distance_loop] in H; [|discriminate].
    destruct (estimate_distance (fst (KalmanFilter_filter test (IZR x)))
                mRSSI txPower) as [v2|] eqn:E2;
      cbn -[distance_loop] in H; [|discriminate].
    apply IH in H as (-> & _ & _).
    apply estimate_distance_inv_full in E1 as (-> & Ht).
    split; [now rewrite <- app_assoc|]. split; [exact Hf|].
    intros _. exact Ht.
Qed.

(** X15: whenever [distanceCalculate] returns, the address has a
    history of at least two samples, the path-loss exponent is not
    zero, the raw array holds the float value of the formula for each
    sample in order, the filtered array has the length of the history,
    and no entry of either array is negative (an entry is zero, a
    positive float, [inf] or [nan]). *)
Theorem distanceCalculate_returns_inv (rssi_dict : gmap string (list Z))
    (mac_address : string) (mRSSI txPower : R) (s : DistanceSeries) :
  distanceCalculate rssi_dict mac_address mRSSI txPower = Ret s ->
  exists h, rssi_dict !! mac_address = Some h /\
    (2 <= length h)%nat /\ txPower <> 0 /\
    raw s = map (fun x => distance (IZR x) mRSSI txPower) h /\
    length (filtered s) = length h /\
    Forall nonneg_float (raw s) /\ Forall nonneg_float (filtered s).
Proof.
  unfold distanceCalculate, getitem.
  destruct (rssi_dict !! mac_address) as [h|]; cbn -[distance_loop];
    [|discriminate].
  unfold stdev. destruct (Nat.ltb_spec (length h) 2) as [Hlt|Hge];
    cbn -[distance_loop]; [discriminate|].
  destruct (distance_loop _ _ _ _ _ _) as [[r f]|] eqn:E;
    cbn; [|discriminate].
  intros [= <-]. apply distance_loop_inv_raw in E as (-> & -> & Ht).
  exists h. cbn [raw filtered app]. repeat split; trivial.
  - apply Ht. destruct h; [simpl in Hge; lia | discriminate].
  - now rewrite length_map, filter_outputs_length, length_map.
  - apply Forall_map, Forall_forall. intros x _. apply distance_nonneg.
  - apply Forall_map, Forall_forall. intros x _. apply distance_nonneg.
Qed.

Lemma distanceCalculate_returns_inv_witness :
  exists s,
    distanceCalculate (one_history [32767; -61]%Z) beacon1 (-59) 2 = Ret s /\
    raw s = [Fin 0; distance (-61) (-59) 2] /\
    length (filtered s) = 2%nat /\
    Forall nonneg_float (raw s) /\ Forall nonneg_float (filtered s).
Proof.
  pose proof float_max_large as Hl.
  assert (Hs : exists s,
    distanceCalculate (one_history [32767; -61]%Z) beacon1 (-59) 2 = Ret s).
  { eexists.
    apply distanceCalculate_returns with (h := [32767; -61]%Z);
      [apply one_history_lookup | simpl; lia | lra |].
    repeat first [apply Forall_nil_2
                 | apply Forall_cons_2; [unfold exponent; lra|]]. }
  destruct Hs as [s Hs]. exists s. split; [exact Hs|].
  destruct (distanceCalculate_returns_inv _ _ _ _ _ Hs)
    as (h & H1 & _ & _ & H4 & H5 & H6 & H7).
  rewrite one_history_lookup in H1. injection H1 as <-.
  split; [|split; [exact H5 | split; [exact H6 | exact H7]]].
  rewrite H4. cbn [map]. f_equal.
  unfold distance. rewrite exponent_finite by (unfold exponent; lra).
  apply pow10_value_underflow, pow10_m324_underflows. unfold exponent. lra.
Defined.

(** X16: with a path-loss exponent of zero [distanceCalculate] never
    returns: it raises KeyError for an unknown address, StatisticsError
    for a history of fewer than two samples and ZeroDivisionError for
    every longer history. *)
Theorem distanceCalculate_zero_exponent (rssi_dict : gmap string (list Z))
    (mac_address : string) (mRSSI : R) :
  distanceCalculate rssi_dict mac_address mRSSI 0 =
  match rssi_dict !! mac_address with
  | None => Raise KeyError
  | Some h =>
      if (length h <? 2)%nat then Raise StatisticsError
      else Raise ZeroDivisionError
  end.
Proof.
  destruct (rssi_dict !! mac_address) as [h|] eqn:Eh.
  - destruct (Nat.ltb_spec (length h) 2) as [Hlt|Hge].
    + unfold distanceCalculate, getitem. rewrite Eh. cbn.
      now rewrite stdev_short.
    + destruct h as [|x rest]; [simpl in Hge; lia|].
      apply distanceCalculate_first_raises with x rest;
        [exact Eh | simpl in Hge; lia |].
      apply estimate_distance_zero_exponent.
  - unfold distanceCalculate, getitem. now rewrite Eh.
Qed.

(** * The main program *)

Lemma recorded_Forall (P : Z -> Prop) (a : string)
    (events : list (string * Z)) :
  Forall (fun e => P (snd e)) events -> Forall P (recorded a events).
Proof.
  induction 1 as [|[b r] rest Hr _ IH]; [constructor|].
  cbn [recorded]. destruct (String.eqb b a); [|exact IH].
  apply Forall_cons_2; assumption.
Qed.

Lemma exponent_int8 (mRSSI : R) (x : Z) :
  -200 <= mRSSI <= 200 -> (-128 <= x <= 127)%Z ->
  exponent (IZR x) mRSSI 2 <= 308.
Proof.
  intros Hm [Hlo Hhi]. apply IZR_le in Hlo, Hhi.
  unfold exponent. lra.
Qed.

Lemma main_body_spec (rounds : list (list (BLEDevice * AdvertisementData))) :
  exists d,
    scan_rounds RecordRSSI_init filter_beacons rounds = Ret d /\
    (forall a, d !! a =
       if seen a (concat (map (scan_events filter_beacons) rounds))
       then Some (recorded a
                    (concat (map (scan_events filter_beacons) rounds)))
       else None).
Proof.
  destruct (record_all_lookup
              (concat (map (scan_events filter_beacons) rounds))
              RecordRSSI_init) as (d & Hd & Hl).
  exists d. rewrite scan_rounds_spec. split; [exact Hd|].
  intros a. rewrite Hl. unfold RecordRSSI_init. now rewrite lookup_empty.
Qed.

(** X17: the main program, up to the plots.  If the first beacon was
    never reported by a scan the computation stops with KeyError, and
    if it was reported once, with StatisticsError.  If each of the three
    beacons was reported at least twice and every reported RSSI is
    within -128..127, the three series are computed, each with as many
    raw and filtered distances as the beacon has samples. *)
Theorem main_body_outcome
    (rounds : list (list (BLEDevice * AdvertisementData))) :
  let events := concat (map (scan_events filter_beacons) rounds) in
  (recorded "EC:81:F6:64:F0:86" events = [] ->
   main_body rounds = Raise KeyError) /\
  (length (recorded "EC:81:F6:64:F0:86" events) = 1%nat ->
   main_body rounds = Raise StatisticsError) /\
  (Forall (fun a => (2 <= length (recorded a events))%nat) filter_beacons ->
   Forall (fun e => (-128 <= snd e <= 127)%Z) events ->
   exists b1 b2 b3, main_body rounds = Ret (b1, b2, b3) /\
     length (raw b1) = length (recorded "EC:81:F6:64:F0:86" events) /\
     length (filtered b1) = length (recorded "EC:81:F6:64:F0:86" events) /\
     length (raw b2) = length (recorded "E0:35:2F:E6:42:46" events) /\
     length (filtered b2) = length (recorded "E0:35:2F:E6:42:46" events) /\
     length (raw b3) = length (recorded "EC:BF:B3:25:D5:6C" events) /\
     length (filtered b3) = length (recorded "EC:BF:B3:25:D5:6C" events)).
Proof.
  intros events. destruct (main_body_spec rounds) as (d & Hd & Hl).
  subst events.
  set (events := concat (map (scan_events filter_beacons) rounds)) in *.
  unfold main_body. rewrite Hd.
  cbn [mbind Py_bind py_bind]. unfold rssi_values.
  split; [|split].
  - intros H0. apply seen_recorded in H0.
    assert (E : distanceCalculate d "EC:81:F6:64:F0:86" (-59) 2 =
                Raise KeyError)
      by (unfold distanceCalculate, getitem; now rewrite Hl, H0).
    now rewrite E.
  - intros H1.
    assert (Hs : seen "EC:81:F6:64:F0:86" events = true).
    { destruct (seen _ events) eqn:E; [reflexivity|].
      apply seen_recorded in E. rewrite E in H1. discriminate. }
    assert (E : distanceCalculate d "EC:81:F6:64:F0:86" (-59) 2 =
                Raise StatisticsError).
    { unfold distanceCalculate, getitem. rewrite Hl, Hs.
      cbn [mbind Py_bind py_bind]. now rewrite stdev_short by lia. }
    now rewrite E.
  - intros Hcount Hrange.
    assert (Hrun : forall a mRSSI, -200 <= mRSSI <= 200 ->
              (2 <= length (recorded a events))%nat ->
              exists s, distanceCalculate d a mRSSI 2 = Ret s /\
                length (raw s) = length (recorded a events) /\
                length (filtered s) = length (recorded a events)).
    { intros a mRSSI Hm Hlen.
      assert (Hs : seen a events = true).
      { destruct (seen a events) eqn:E; [reflexivity|].
        apply seen_recorded in E. rewrite E in Hlen. simpl in Hlen. lia. }
      eexists. split.
      - apply distanceCalculate_returns with (h := recorded a events).
        + now rewrite Hl, Hs.
        + exact Hlen.
        + lra.
        + eapply Forall_impl;
            [apply (recorded_Forall (fun x => (-128 <= x <= 127)%Z));
             exact Hrange|].
          intros x Hx. now apply exponent_int8.
      - cbn [raw filtered].
        now rewrite !length_map, filter_outputs_length, length_map. }
    apply Forall_cons in Hcount as [H1 Hcount].
    apply Forall_cons in Hcount as [H2 Hcount].
    apply Forall_cons in Hcount as [H3 _].
    destruct (Hrun "EC:81:F6:64:F0:86"%string (-59)) as (b1 & E1 & L1 & F1);
      [lra | exact H1 |].
    destruct (Hrun "E0:35:2F:E6:42:46"%string (-65)) as (b2 & E2 & L2 & F2);
      [lra | exact H2 |].
    destruct (Hrun "EC:BF:B3:25:D5:6C"%string (-62)) as (b3 & E3 & L3 & F3);
      [lra | exact H3 |].
    exists b1, b2, b3. rewrite E1. cbn [mbind Py_bind py_bind].
    rewrite E2. cbn [mbind Py_bind py_bind].
    rewrite E3. cbn [mbind Py_bind py_bind]. repeat split; assumption.
Qed.

Lemma main_body_outcome_witness :
  main_body [] = Raise KeyError /\
  main_body [three_beacons (-60) (-70) (-65)] = Raise StatisticsError /\
  exists b1 b2 b3,
    main_body [three_beacons (-60) (-70) (-65);
               three_beacons (-61) (-71) (-66)] = Ret (b1, b2, b3) /\
    length (raw b1) = 2%nat /\ length (filtered b3) = 2%nat.
Proof.
  split; [|split].
  - pose proof (main_body_outcome []) as H. cbv zeta in H.
    destruct H as (H & _ & _). apply H. reflexivity.
  - pose proof (main_body_outcome [three_beacons (-60) (-70) (-65)]) as H.
    cbv zeta in H. destruct H as (_ & H & _). apply H. reflexivity.
  - pose proof (main_body_outcome
                  [three_beacons (-60) (-70) (-65);
                   three_beacons (-61) (-71) (-66)]) as H.
    cbv zeta in H. destruct H as (_ & _ & H).
    destruct H as (b1 & b2 & b3 & Hb & L1 & _ & _ & _ & _ & F3).
    + repeat first [apply Forall_nil_2
                   | apply Forall_cons_2; [vm_compute; lia|]].
    + repeat first [apply Forall_nil_2
                   | apply Forall_cons_2; [simpl; lia|]].
    + exists b1, b2, b3. split; [exact Hb|]. split.
      * rewrite L1. reflexivity.
      * rewrite F3. reflexivity.
Defined.
